(** * Consensus change subscription (modules/consensus/subscribe.go)

    A shallow embedding of the change computer, the notifier and the two
    subscription entry points of the consensus set, together with the
    properties the specification states about them.

    Conventions of the embedding:
    - Go slices are lists; [append(s, x)] is [s ++ [x]]; a nil slice is [[]].
    - A Go [int] or [uint64] is a [Z]; the only arithmetic that can wrap
      (the height counter of the digest bootstrap) has its wrap written out.
    - A Go function returning [(v, err)] returns a pair whose second
      component is [None] for a nil error.
    - A Go panic is an outcome of its own ([Panic]), distinct from a
      returned error.
    - The calls made on subscribers are recorded, in order, in a trace.
    - The read-write lock of the consensus set is not modelled: every
      function is embedded as one sequential run. *)

From stdpp Require Import base list gmap strings.
From Stdlib Require Import ZArith.

(** ** Outcomes of a Go call *)

Definition error := string.

Inductive runtimeError := NilDereference | IndexOutOfRange.

Inductive panicValue :=
| PanicError (e : error)
| PanicRuntime (r : runtimeError).

Inductive res (A : Type) :=
| Val (a : A)
| Panic (v : panicValue)
| OutOfFuel.
Arguments Val {A} a.
Arguments Panic {A} v.
Arguments OutOfFuel {A}.

Definition res_bind {A B} (r : res A) (k : A -> res B) : res B :=
  match r with
  | Val a => k a
  | Panic v => Panic v
  | OutOfFuel => OutOfFuel
  end.

(** A run that also records the calls of type [E] it made, oldest first.
    A panic keeps the calls made before it. *)
Definition run (E A : Type) : Type := (list E * res A)%type.

Definition ret {E A} (a : A) : run E A := ([], Val a).
Definition emit {E} (e : E) : run E unit := ([e], Val tt).
Definition throw {E A} (v : panicValue) : run E A := ([], Panic v).
Definition lift {E A} (r : res A) : run E A := ([], r).

Definition bind {E A B} (m : run E A) (k : A -> run E B) : run E B :=
  match m with
  | (t, Val a) => let '(t', r) := k a in (t ++ t', r)
  | (t, Panic v) => (t, Panic v)
  | (t, OutOfFuel) => (t, OutOfFuel)
  end.

Notation "'let*' x := m 'in' k" := (bind m (fun x => k))
  (at level 10, x name, m at level 100, k at level 200).
Notation "'let*' ( x , y ) := m 'in' k" := (bind m (fun '(x, y) => k))
  (at level 10, x name, y name, m at level 100, k at level 200).
Notation "m >> k" := (bind m (fun _ => k))
  (at level 100, k at level 200, right associativity).

(** [for _, x := range l { body x }] *)
Fixpoint forRange {E A} (l : list A) (body : A -> run E unit) : run E unit :=
  match l with
  | [] => ret tt
  | x :: l' => body x >> forRange l' body
  end.

(** ** Data model *)

(** [modules.DiffDirection] is a boolean: the code negates it with [!]. *)
Definition DiffDirection := bool.

(** A diff: its direction flag and the remaining fields, which the code of
    this file copies without looking at them. *)
Record Diff (B : Type) := mkDiff { Direction : DiffDirection; body : B }.
Arguments mkDiff {B} Direction body.
Arguments Direction {B} d.
Arguments body {B} d.

(** [d.Direction = dir], on the local copy [d] of a slice element. *)
Definition setDirection {B} (dir : DiffDirection) (d : Diff B) : Diff B :=
  mkDiff dir (body d).

(** [d.Direction = !d.Direction] *)
Definition invertDirection {B} (d : Diff B) : Diff B :=
  setDirection (negb (Direction d)) d.

(** [for _, x := range src { dst = append(dst, x) }] *)
Definition appendAll {A} (dst src : list A) : list A :=
  fold_left (fun acc x => acc ++ [x]) src dst.

(** [for i := len(src) - 1; i >= 0; i-- { d := src[i]; d = f d; dst = append(dst, d) }],
    entered with [n = len(src)]: [n] is the number of indices still to
    visit, the next one being [n - 1]. That index is within the slice, so
    the second branch of the lookup is never taken. *)
Fixpoint appendReversed {A} (f : A -> A) (src : list A) (n : nat) (dst : list A)
  : list A :=
  match n with
  | O => dst
  | S i =>
      match src !! i with
      | Some d => appendReversed f src i (dst ++ [f d])
      | None => dst
      end
  end.

Section Consensus.

Context {BlockID Block : Type}.
Context {SiacoinOutput FileContract SiafundOutput DelayedSiacoinOutput SiafundPool : Type}.
Context {Tx Subscriber DigestSubscriber : Type}.

Record changeEntry := {
  revertedBlocks : list BlockID;
  appliedBlocks : list BlockID
}.

(** The record the block store keeps for a block: the fields read here. *)
Record processedBlock := {
  pb_Block : Block;
  pb_SiacoinOutputDiffs : list (Diff SiacoinOutput);
  pb_FileContractDiffs : list (Diff FileContract);
  pb_SiafundOutputDiffs : list (Diff SiafundOutput);
  pb_DelayedSiacoinOutputDiffs : list (Diff DelayedSiacoinOutput);
  pb_SiafundPoolDiffs : list (Diff SiafundPool)
}.

Record ConsensusChange := {
  RevertedBlocks : list Block;
  AppliedBlocks : list Block;
  SiacoinOutputDiffs : list (Diff SiacoinOutput);
  FileContractDiffs : list (Diff FileContract);
  SiafundOutputDiffs : list (Diff SiafundOutput);
  DelayedSiacoinOutputDiffs : list (Diff DelayedSiacoinOutput);
  SiafundPoolDiffs : list (Diff SiafundPool)
}.

(** The zero value [modules.ConsensusChange{}]. *)
Definition zeroChange : ConsensusChange :=
  {| RevertedBlocks := []; AppliedBlocks := [];
     SiacoinOutputDiffs := []; FileContractDiffs := [];
     SiafundOutputDiffs := []; DelayedSiacoinOutputDiffs := [];
     SiafundPoolDiffs := [] |}.

(** The fields of [ConsensusSet] this file uses. [db] is the database; a
    read transaction opened on it is identified with its contents. *)
Record ConsensusSet := {
  db : Tx;
  changeLog : list changeEntry;
  subscribers : list Subscriber;
  digestSubscribers : list DigestSubscriber
}.

(** The calls made on subscribers. *)
Inductive call :=
| ProcessConsensusChange (s : Subscriber) (cc : ConsensusChange)
| ProcessConsensusDigest (s : DigestSubscriber) (revertedIDs appliedIDs : list BlockID).

(** What this file takes from the rest of the repository: the build flag,
    the direction constant, the block hash and the three database readers.
    [getBlockMap] returns a reference to a record, [None] being the nil
    reference, next to its error. Heights are [uint64]. *)
Class Externals := {
  DEBUG : bool;
  DiffRevert : DiffDirection;
  ID : Block -> BlockID;
  getBlockMap : Tx -> BlockID -> option processedBlock * option error;
  blockHeight : Tx -> Z;
  getPath : Tx -> Z -> BlockID * option error
}.

Context `{Ext : !Externals}.

(** Modelled from the spec: the constant [modules.DiffApply] is declared
    outside this file; the spec gives a direction the two values Apply and
    Revert, so Apply is the boolean that is not [DiffRevert]. *)
Definition DiffApply : DiffDirection := negb DiffRevert.

(** [db.View(fn)]: runs [fn] on a read transaction and returns its result. *)
Definition View {A} (d : Tx) (fn : Tx -> A) : A := fn d.

Definition boundsError : error := "bounds error when querying changelog".

(** *** computeConsensusChange *)

(** Body of the loop over the reverted blocks, after the lookup. *)
Definition revertBlock (cc : ConsensusChange) (revertedBlock : processedBlock)
  : ConsensusChange :=
  {| RevertedBlocks := RevertedBlocks cc ++ [pb_Block revertedBlock];
     AppliedBlocks := AppliedBlocks cc;
     SiacoinOutputDiffs :=
       appendReversed invertDirection (pb_SiacoinOutputDiffs revertedBlock)
         (length (pb_SiacoinOutputDiffs revertedBlock)) (SiacoinOutputDiffs cc);
     FileContractDiffs :=
       appendReversed invertDirection (pb_FileContractDiffs revertedBlock)
         (length (pb_FileContractDiffs revertedBlock)) (FileContractDiffs cc);
     SiafundOutputDiffs :=
       appendReversed invertDirection (pb_SiafundOutputDiffs revertedBlock)
         (length (pb_SiafundOutputDiffs revertedBlock)) (SiafundOutputDiffs cc);
     DelayedSiacoinOutputDiffs :=
       appendReversed invertDirection (pb_DelayedSiacoinOutputDiffs revertedBlock)
         (length (pb_DelayedSiacoinOutputDiffs revertedBlock))
         (DelayedSiacoinOutputDiffs cc);
     SiafundPoolDiffs :=
       appendReversed (setDirection DiffRevert) (pb_SiafundPoolDiffs revertedBlock)
         (length (pb_SiafundPoolDiffs revertedBlock)) (SiafundPoolDiffs cc) |}.

(** Body of the loop over the applied blocks, after the lookup. *)
Definition applyBlock (cc : ConsensusChange) (appliedBlock : processedBlock)
  : ConsensusChange :=
  {| RevertedBlocks := RevertedBlocks cc;
     AppliedBlocks := AppliedBlocks cc ++ [pb_Block appliedBlock];
     SiacoinOutputDiffs :=
       appendAll (SiacoinOutputDiffs cc) (pb_SiacoinOutputDiffs appliedBlock);
     FileContractDiffs :=
       appendAll (FileContractDiffs cc) (pb_FileContractDiffs appliedBlock);
     SiafundOutputDiffs :=
       appendAll (SiafundOutputDiffs cc) (pb_SiafundOutputDiffs appliedBlock);
     DelayedSiacoinOutputDiffs :=
       appendAll (DelayedSiacoinOutputDiffs cc)
         (pb_DelayedSiacoinOutputDiffs appliedBlock);
     SiafundPoolDiffs :=
       appendAll (SiafundPoolDiffs cc) (pb_SiafundPoolDiffs appliedBlock) |}.

(** One of the two loops over block IDs: look the block up, panic on a
    lookup error in a debug build, then run [step] on the record. The
    lookup error is a variable of the loop body: it never reaches the
    error result of the function. Reading a field of a nil record is a
    runtime panic. *)
Fixpoint blockLoop (step : ConsensusChange -> processedBlock -> ConsensusChange)
    (tx : Tx) (ids : list BlockID) (cc : ConsensusChange) : res ConsensusChange :=
  match ids with
  | [] => Val cc
  | id :: ids' =>
      let '(pb, err) := getBlockMap tx id in
      match err with
      | Some e =>
          if DEBUG then Panic (PanicError e)
          else
            match pb with
            | Some b => blockLoop step tx ids' (step cc b)
            | None => Panic (PanicRuntime NilDereference)
            end
      | None =>
          match pb with
          | Some b => blockLoop step tx ids' (step cc b)
          | None => Panic (PanicRuntime NilDereference)
          end
      end
  end.

(** The two loops of [computeConsensusChange] on the entry [ce]. *)
Definition replayEntry (tx : Tx) (ce : changeEntry) : res ConsensusChange :=
  res_bind (blockLoop revertBlock tx (revertedBlocks ce) zeroChange) (fun cc =>
  blockLoop applyBlock tx (appliedBlocks ce) cc).

Definition computeConsensusChange (cs : ConsensusSet) (tx : Tx) (i : Z)
  : res (ConsensusChange * option error) :=
  if bool_decide (i < 0)%Z || bool_decide (i >= Z.of_nat (length (changeLog cs)))%Z
  then Val (zeroChange, Some boundsError)
  else
    match changeLog cs !! Z.to_nat i with
    | None => Panic (PanicRuntime IndexOutOfRange)
    | Some ce =>
        res_bind (replayEntry tx ce) (fun cc => Val (cc, None))
    end.

(** *** ConsensusChange (the public query [cs.ConsensusChange(i)]) *)

Definition ConsensusSet_ConsensusChange (cs : ConsensusSet) (i : Z)
  : res (ConsensusChange * option error) :=
  res_bind (View (db cs) (fun tx => computeConsensusChange cs tx i)) (fun '(cc, err) =>
  match err with
  | Some e => Val (zeroChange, Some e)
  | None => Val (cc, None)
  end).

(** *** readlockUpdateSubscribers *)

(** [if err != nil && build.DEBUG { panic(err) }] *)
Definition debugPanic {E} (err : option error) : run E unit :=
  match err with
  | Some e => if DEBUG then throw (PanicError e) else ret tt
  | None => ret tt
  end.

(** [for _, b := range blocks { ids = append(ids, b.ID()) }] *)
Definition appendIDs (ids : list BlockID) (blocks : list Block) : list BlockID :=
  fold_left (fun acc b => acc ++ [ID b]) blocks ids.

Definition readlockUpdateSubscribers (cs : ConsensusSet) (ce : changeEntry)
  : run call unit :=
  let* (cc, err) :=
    lift (View (db cs) (fun tx =>
      computeConsensusChange cs tx (Z.of_nat (length (changeLog cs)) - 1))) in
  debugPanic err >>
  forRange (subscribers cs) (fun subscriber =>
    emit (ProcessConsensusChange subscriber cc)) >>
  let revertedIDs := appendIDs [] (RevertedBlocks cc) in
  let appliedIDs := appendIDs [] (AppliedBlocks cc) in
  forRange (digestSubscribers cs) (fun ds =>
    emit (ProcessConsensusDigest ds revertedIDs appliedIDs)).

(** *** ConsensusSetDigestSubscribe *)

(** [for i := types.BlockHeight(0); i <= height; i++ { ... }], entered at
    [i] with the path read so far. The counter is a [uint64], so [i++]
    wraps; [fuel] bounds the number of iterations. The result is the path
    and the error the closure would return. *)
Fixpoint pathLoop (fuel : nat) (tx : Tx) (height i : Z) (currentPath : list BlockID)
  : res (list BlockID * option error) :=
  if negb (bool_decide (i <= height)%Z) then Val (currentPath, None)
  else
    match fuel with
    | O => OutOfFuel
    | S fuel' =>
        let '(id, err) := getPath tx i in
        match err with
        | Some e => Val (currentPath, Some e)
        | None => pathLoop fuel' tx height ((i + 1) mod 2 ^ 64)%Z (currentPath ++ [id])
        end
    end.

Definition ConsensusSetDigestSubscribe (fuel : nat) (cs : ConsensusSet)
    (subscriber : DigestSubscriber) : run call ConsensusSet :=
  let cs :=
    {| db := db cs; changeLog := changeLog cs; subscribers := subscribers cs;
       digestSubscribers := digestSubscribers cs ++ [subscriber] |} in
  let* err :=
    View (db cs) (fun tx =>
      let height := blockHeight tx in
      let* (currentPath, err) := lift (pathLoop fuel tx height 0 []) in
      match err with
      | Some e => ret (Some e)
      | None => emit (ProcessConsensusDigest subscriber [] currentPath) >> ret None
      end) in
  debugPanic err >>
  ret cs.

(** *** ConsensusSetSubscribe *)

Definition ConsensusSetSubscribe (cs : ConsensusSet) (subscriber : Subscriber)
  : run call ConsensusSet :=
  let cs :=
    {| db := db cs; changeLog := changeLog cs;
       subscribers := subscribers cs ++ [subscriber];
       digestSubscribers := digestSubscribers cs |} in
  View (db cs) (fun tx =>
    forRange (Z.of_nat <$> seq 0 (length (changeLog cs))) (fun i =>
      let* (cc, err) := lift (computeConsensusChange cs tx i) in
      debugPanic err >>
      emit (ProcessConsensusChange subscriber cc))) >>
  ret cs.

(** ** The specification's vocabulary

    The definitions below are not translated from the code: they say, in
    the specification's words, what the code is compared with. *)

(** The block IDs of an entry, in the order the change computer reads them. *)
Definition entryIDs (ce : changeEntry) : list BlockID :=
  revertedBlocks ce ++ appliedBlocks ce.

(** The block [id] is present in the store, with record [pb]. *)
Definition found (tx : Tx) (id : BlockID) (pb : processedBlock) : Prop :=
  getBlockMap tx id = (Some pb, None).

Definition present (tx : Tx) (id : BlockID) : Prop :=
  exists pb, found tx id pb.

(** The lookup of [id] handed back the record [pb], with or without an error. *)
Definition returned (tx : Tx) (id : BlockID) (pb : processedBlock) : Prop :=
  (getBlockMap tx id).1 = Some pb.

(** The lookup of [id] handed back the record [pb] and the loop goes on with
    it: there was no error, or the build is a release build. *)
Definition fetched (tx : Tx) (id : BlockID) (pb : processedBlock) : Prop :=
  returned tx id pb /\ ((getBlockMap tx id).2 = None \/ DEBUG = false).

(** The lookup of [id] reported an error. *)
Definition lookupFails (tx : Tx) (id : BlockID) : Prop :=
  (getBlockMap tx id).2 <> None.

(** Apply becomes Revert and Revert becomes Apply. *)
Definition opposite (dir : DiffDirection) : DiffDirection :=
  if bool_decide (dir = DiffApply) then DiffRevert else DiffApply.

Definition inverted {B} (d : Diff B) : Diff B :=
  mkDiff (opposite (Direction d)) (body d).

Definition forcedRevert {B} (d : Diff B) : Diff B :=
  mkDiff DiffRevert (body d).

(** What the reverted blocks [pbs] contribute to one diff sequence: for each
    block in turn, its stored diffs in reverse order, each changed by [g]. *)
Definition revertedDiffs {B} (g : Diff B -> Diff B)
    (field : processedBlock -> list (Diff B)) (pbs : list processedBlock)
  : list (Diff B) :=
  pbs ≫= (fun pb => g <$> reverse (field pb)).

(** What the applied blocks [pbs] contribute: their stored diffs, as stored. *)
Definition appliedDiffs {B} (field : processedBlock -> list (Diff B))
    (pbs : list processedBlock) : list (Diff B) :=
  pbs ≫= field.

(** The consensus change of section 4.1 for an entry whose reverted blocks
    have the records [rpbs] and whose applied blocks have the records [apbs]. *)
Definition specChange (rpbs apbs : list processedBlock) : ConsensusChange :=
  {| RevertedBlocks := pb_Block <$> rpbs;
     AppliedBlocks := pb_Block <$> apbs;
     SiacoinOutputDiffs :=
       revertedDiffs inverted pb_SiacoinOutputDiffs rpbs
       ++ appliedDiffs pb_SiacoinOutputDiffs apbs;
     FileContractDiffs :=
       revertedDiffs inverted pb_FileContractDiffs rpbs
       ++ appliedDiffs pb_FileContractDiffs apbs;
     SiafundOutputDiffs :=
       revertedDiffs inverted pb_SiafundOutputDiffs rpbs
       ++ appliedDiffs pb_SiafundOutputDiffs apbs;
     DelayedSiacoinOutputDiffs :=
       revertedDiffs inverted pb_DelayedSiacoinOutputDiffs rpbs
       ++ appliedDiffs pb_DelayedSiacoinOutputDiffs apbs;
     SiafundPoolDiffs :=
       revertedDiffs forcedRevert pb_SiafundPoolDiffs rpbs
       ++ appliedDiffs pb_SiafundPoolDiffs apbs |}.

(** Modelled from the spec: [getBlockMap] is declared outside this file;
    section 6 gives the lookup of a block record the results
    [StoredBlockRecord | NotFound], so a lookup that reports an error hands
    back no record. *)
Definition noRecordOnError (tx : Tx) (id : BlockID) : Prop :=
  forall r e, getBlockMap tx id = (r, Some e) -> r = None.

(** One notification pass for the change [cc]: every full subscriber, then
    every digest subscriber, each list in registration order. *)
Definition notification (cs : ConsensusSet) (cc : ConsensusChange) : list call :=
  ((fun s => ProcessConsensusChange s cc) <$> subscribers cs)
  ++ ((fun ds => ProcessConsensusDigest ds (ID <$> RevertedBlocks cc)
                   (ID <$> AppliedBlocks cc)) <$> digestSubscribers cs).

(** The block IDs of the best path, from height 0 to the current height. *)
Definition bestPath (tx : Tx) : list BlockID :=
  (fun h => (getPath tx h).1) <$> seqZ 0 (blockHeight tx + 1).

(** The consensus set once [s] is registered as a full subscriber. *)
Definition withSubscriber (cs : ConsensusSet) (s : Subscriber) : ConsensusSet :=
  {| db := db cs; changeLog := changeLog cs;
     subscribers := subscribers cs ++ [s];
     digestSubscribers := digestSubscribers cs |}.

(** The consensus set once [s] is registered as a digest subscriber. *)
Definition withDigestSubscriber (cs : ConsensusSet) (s : DigestSubscriber)
  : ConsensusSet :=
  {| db := db cs; changeLog := changeLog cs;
     subscribers := subscribers cs;
     digestSubscribers := digestSubscribers cs ++ [s] |}.

(** Every block ID of every entry of the log is present in the store. *)
Definition logInStore (cs : ConsensusSet) : Prop :=
  Forall (fun ce => Forall (present (db cs)) (entryIDs ce)) (changeLog cs).

End Consensus.


(** ** A small store to run the model on

    Block IDs, blocks and the payloads of diffs are numbers; the block [b]
    has the ID [b + 100]. A store holds the block records by ID and the
    best path by height. A lookup that misses returns no record and the
    error [notFound]. *)

Module Sample.

Definition pblock : Type := @processedBlock nat nat nat nat nat nat.
Definition change : Type := @ConsensusChange nat nat nat nat nat nat.

Record store := { blocks : gmap nat pblock; path : list nat }.

Definition notFound : error := "requested item does not exist".

Definition lookupBlock (tx : store) (id : nat)
  : option pblock * option error :=
  match blocks tx !! id with
  | Some pb => (Some pb, None)
  | None => (None, Some notFound)
  end.

Definition height (tx : store) : Z := Z.of_nat (length (path tx)) - 1.

Definition lookupPath (tx : store) (h : Z) : nat * option error :=
  match path tx !! Z.to_nat h with
  | Some id => (id, None)
  | None => (0, Some notFound)
  end.

Definition env (debug : bool)
  : @Externals nat nat nat nat nat nat nat store :=
  {| DEBUG := debug; DiffRevert := false; ID := fun b => b + 100;
     getBlockMap := lookupBlock; blockHeight := height;
     getPath := lookupPath |}.

Definition debugEnv := env true.

Definition releaseEnv := env false.

(** A block record whose diffs all carry the payloads [k], [k + 1] with the
    directions apply, revert, and whose pool diff is an apply. *)
Definition record (b k : nat) : pblock :=
  {| pb_Block := b;
     pb_SiacoinOutputDiffs := [mkDiff true k; mkDiff false (k + 1)];
     pb_FileContractDiffs := [mkDiff true k];
     pb_SiafundOutputDiffs := [mkDiff false k; mkDiff true (k + 1)];
     pb_DelayedSiacoinOutputDiffs := [mkDiff true k; mkDiff true (k + 1)];
     pb_SiafundPoolDiffs := [mkDiff true k; mkDiff false (k + 1)] |}.

(** The reorganisation scenario of section 8: blocks 1 and 2 applied, then
    block 2 reverted and blocks 3 and 4 applied. *)
Definition tx0 : store :=
  {| blocks := <[101 := record 1 10]> (<[102 := record 2 20]>
               (<[103 := record 3 30]> (<[104 := record 4 40]> ∅)));
     path := [100; 101; 103; 104] |}.

Definition entry (r a : list nat) : @changeEntry nat :=
  {| revertedBlocks := r; appliedBlocks := a |}.

Definition log0 : list (@changeEntry nat) :=
  [entry [] [101]; entry [] [102]; entry [102] [103; 104]].

Definition cs0 : @ConsensusSet nat store string string :=
  {| db := tx0; changeLog := log0;
     subscribers := ["wallet"; "miner"]; digestSubscribers := ["explorer"] |}.

(** A log whose only entry names the block 105, which the store lacks. *)
Definition cs1 : @ConsensusSet nat store string string :=
  {| db := tx0; changeLog := [entry [] [101; 105]];
     subscribers := ["wallet"]; digestSubscribers := [] |}.

(** The same log held by a consensus set with other subscribers, over a
    store that has one more block and a longer path. *)
Definition tx2 : store :=
  {| blocks := <[105 := record 5 50]> (blocks tx0);
     path := [100; 101; 103; 104; 105] |}.

Definition cs2 : @ConsensusSet nat store string string :=
  {| db := tx2; changeLog := log0;
     subscribers := []; digestSubscribers := ["explorer"; "monitor"] |}.

(** A consensus set whose log is still empty. *)
Definition csEmpty : @ConsensusSet nat store string string :=
  {| db := tx0; changeLog := [];
     subscribers := ["wallet"]; digestSubscribers := ["explorer"] |}.

(** The change of the last entry of [log0]. *)
Definition cc0 : change :=
  specChange (Ext:=debugEnv) [record 2 20] [record 3 30; record 4 40].

(** A log whose second entry names the block 105, which the store lacks. *)
Definition cs3 : @ConsensusSet nat store string string :=
  {| db := tx0; changeLog := [entry [] [101]; entry [] [105]; entry [] [103]];
     subscribers := []; digestSubscribers := [] |}.

(** The consensus set [cs0] before its last entry was appended and before
    the miner subscribed. *)
Definition csBefore : @ConsensusSet nat store string string :=
  {| db := tx0; changeLog := [entry [] [101]; entry [] [102]];
     subscribers := ["wallet"]; digestSubscribers := ["explorer"] |}.

(** A log that applies the blocks 3 and 4 and then reverts them. *)
Definition csUndo : @ConsensusSet nat store string string :=
  {| db := tx0; changeLog := [entry [] [103; 104]; entry [104; 103] []];
     subscribers := ["wallet"]; digestSubscribers := [] |}.

(** An environment whose height, 5, is above the heights the path of the
    sample stores has a block for. *)
Definition shortPathEnv (debug : bool)
  : @Externals nat nat nat nat nat nat nat store :=
  {| DEBUG := debug; DiffRevert := false; ID := fun b => b + 100;
     getBlockMap := lookupBlock; blockHeight := fun _ => 5%Z;
     getPath := lookupPath |}.

(** An environment at the largest height, with a block at every height. *)
Definition endlessEnv : @Externals nat nat nat nat nat nat nat store :=
  {| DEBUG := true; DiffRevert := false; ID := fun b => b + 100;
     getBlockMap := lookupBlock; blockHeight := fun _ => (2 ^ 64 - 1)%Z;
     getPath := fun _ h => (Z.to_nat h, None) |}.

End Sample.

(** Goals stating that the blocks of a list are in the sample store. *)
Ltac in_store :=
  repeat first
    [ apply Forall_nil_2
    | apply Forall_cons_2
    | eexists; reflexivity ].

(** ** The change computer *)

Section Properties.

Context {BlockID Block : Type}.
Context {SiacoinOutput FileContract SiafundOutput DelayedSiacoinOutput SiafundPool : Type}.
Context {Tx Subscriber DigestSubscriber : Type}.
Context `{Ext : !@Externals BlockID Block SiacoinOutput FileContract SiafundOutput
                   DelayedSiacoinOutput SiafundPool Tx}.

Local Abbreviation processedBlock :=
  (@processedBlock Block SiacoinOutput FileContract SiafundOutput
     DelayedSiacoinOutput SiafundPool).
Local Abbreviation ConsensusChange :=
  (@ConsensusChange Block SiacoinOutput FileContract SiafundOutput
     DelayedSiacoinOutput SiafundPool).
Local Abbreviation ConsensusSet := (@ConsensusSet BlockID Tx Subscriber DigestSubscriber).
Local Abbreviation changeEntry := (@changeEntry BlockID).
Local Abbreviation call :=
  (@call BlockID Block SiacoinOutput FileContract SiafundOutput
     DelayedSiacoinOutput SiafundPool Subscriber DigestSubscriber).
Local Abbreviation ProcessConsensusChange :=
  (@ProcessConsensusChange BlockID Block SiacoinOutput FileContract SiafundOutput
     DelayedSiacoinOutput SiafundPool Subscriber DigestSubscriber).
Local Abbreviation ProcessConsensusDigest :=
  (@ProcessConsensusDigest BlockID Block SiacoinOutput FileContract SiafundOutput
     DelayedSiacoinOutput SiafundPool Subscriber DigestSubscriber).

Implicit Types (cs : ConsensusSet) (ce : changeEntry) (tx : Tx) (i : Z).
Implicit Types (cc : ConsensusChange) (pb : processedBlock) (id : BlockID).
Implicit Types (ids : list BlockID) (pbs rpbs apbs : list processedBlock).

(** *** Loops as list operations *)

Lemma appendAll_app {A} (src dst : list A) : appendAll dst src = dst ++ src.
Proof.
  unfold appendAll. revert dst.
  induction src as [|x src IH]; intros dst; simpl.
  - by rewrite app_nil_r.
  - rewrite IH. by rewrite <- app_assoc.
Qed.

Lemma appendReversed_take {A} (f : A -> A) (src : list A) (n : nat) :
  n <= length src ->
  forall dst, appendReversed f src n dst = dst ++ (f <$> reverse (take n src)).
Proof.
  induction n as [|i IH]; intros Hn dst; simpl.
  - by rewrite app_nil_r.
  - destruct (lookup_lt_is_Some_2 src i) as [d Hd]; [lia|].
    rewrite Hd, IH by lia.
    rewrite (take_S_r _ _ _ Hd), reverse_snoc, <- app_assoc.
    reflexivity.
Qed.

Lemma appendReversed_reverse {A} (f : A -> A) (src dst : list A) :
  appendReversed f src (length src) dst = dst ++ (f <$> reverse src).
Proof.
  rewrite appendReversed_take by lia. by rewrite firstn_all.
Qed.

Lemma forRange_emit {E A} (f : A -> E) (l : list A) :
  forRange l (fun x => emit (f x)) = (f <$> l, Val tt).
Proof.
  induction l as [|x l IH]; simpl; [done|].
  by rewrite IH.
Qed.

(** *** Directions *)

Lemma negb_opposite (dir : DiffDirection) : negb dir = opposite dir.
Proof.
  unfold opposite, DiffApply.
  case_bool_decide as Hd; [subst dir; by rewrite negb_involutive|].
  destruct dir, DiffRevert; simpl in *; congruence.
Qed.

Lemma opposite_Apply : opposite DiffApply = DiffRevert.
Proof. unfold opposite. by rewrite bool_decide_eq_true_2. Qed.

Lemma opposite_Revert : opposite DiffRevert = DiffApply.
Proof.
  unfold opposite. rewrite bool_decide_eq_false_2; [done|].
  unfold DiffApply. by destruct DiffRevert.
Qed.

Lemma invertDirection_inverted {B} (d : Diff B) : invertDirection d = inverted d.
Proof.
  unfold invertDirection, inverted, setDirection. by rewrite negb_opposite.
Qed.

Lemma appendReversed_inverted {B} (src dst : list (Diff B)) :
  appendReversed invertDirection src (length src) dst
  = dst ++ (inverted <$> reverse src).
Proof.
  rewrite appendReversed_reverse. f_equal.
  apply list_fmap_ext. intros ? d _. apply invertDirection_inverted.
Qed.

Lemma found_fetched tx id pb : found tx id pb -> fetched tx id pb.
Proof. unfold found, fetched, returned. intros ->. simpl. auto. Qed.

Lemma Forall2_found_fetched tx ids pbs :
  Forall2 (found tx) ids pbs -> Forall2 (fetched tx) ids pbs.
Proof.
  intros H. eapply Forall2_impl; [exact H|]. intros ??. apply found_fetched.
Qed.

Lemma Forall_present_found tx ids :
  Forall (present tx) ids -> exists pbs, Forall2 (found tx) ids pbs.
Proof.
  induction 1 as [|id ids [pb Hpb] _ [pbs IH]].
  - exists []. constructor.
  - exists (pb :: pbs). by constructor.
Qed.

(** With every lookup handing back a record, a loop over block IDs is the
    left fold of its body over the records. *)
Lemma blockLoop_fetched step tx ids pbs :
  Forall2 (fetched tx) ids pbs ->
  forall cc, blockLoop step tx ids cc = Val (foldl step cc pbs).
Proof.
  induction 1 as [|id pb ids pbs [Hr He] _ IH]; intros cc; simpl; [done|].
  unfold returned in Hr.
  destruct (getBlockMap tx id) as [r err]. simpl in *. subst r.
  destruct err as [e|]; [|apply IH].
  destruct He as [He|He]; [done|]. rewrite He. apply IH.
Qed.

Lemma foldl_revertBlock pbs cc :
  foldl revertBlock cc pbs =
  {| RevertedBlocks := RevertedBlocks cc ++ (pb_Block <$> pbs);
     AppliedBlocks := AppliedBlocks cc;
     SiacoinOutputDiffs :=
       SiacoinOutputDiffs cc ++ revertedDiffs inverted pb_SiacoinOutputDiffs pbs;
     FileContractDiffs :=
       FileContractDiffs cc ++ revertedDiffs inverted pb_FileContractDiffs pbs;
     SiafundOutputDiffs :=
       SiafundOutputDiffs cc ++ revertedDiffs inverted pb_SiafundOutputDiffs pbs;
     DelayedSiacoinOutputDiffs :=
       DelayedSiacoinOutputDiffs cc
       ++ revertedDiffs inverted pb_DelayedSiacoinOutputDiffs pbs;
     SiafundPoolDiffs :=
       SiafundPoolDiffs cc ++ revertedDiffs forcedRevert pb_SiafundPoolDiffs pbs |}.
Proof.
  revert cc. induction pbs as [|pb pbs IH]; intros cc; simpl.
  - unfold revertedDiffs. simpl. rewrite !app_nil_r. by destruct cc.
  - rewrite IH. unfold revertBlock, revertedDiffs. simpl.
    rewrite !appendReversed_inverted, appendReversed_reverse.
    rewrite <- !app_assoc. reflexivity.
Qed.

Lemma foldl_applyBlock pbs cc :
  foldl applyBlock cc pbs =
  {| RevertedBlocks := RevertedBlocks cc;
     AppliedBlocks := AppliedBlocks cc ++ (pb_Block <$> pbs);
     SiacoinOutputDiffs :=
       SiacoinOutputDiffs cc ++ appliedDiffs pb_SiacoinOutputDiffs pbs;
     FileContractDiffs :=
       FileContractDiffs cc ++ appliedDiffs pb_FileContractDiffs pbs;
     SiafundOutputDiffs :=
       SiafundOutputDiffs cc ++ appliedDiffs pb_SiafundOutputDiffs pbs;
     DelayedSiacoinOutputDiffs :=
       DelayedSiacoinOutputDiffs cc
       ++ appliedDiffs pb_DelayedSiacoinOutputDiffs pbs;
     SiafundPoolDiffs :=
       SiafundPoolDiffs cc ++ appliedDiffs pb_SiafundPoolDiffs pbs |}.
Proof.
  revert cc. induction pbs as [|pb pbs IH]; intros cc; simpl.
  - unfold appliedDiffs. simpl. rewrite !app_nil_r. by destruct cc.
  - rewrite IH. unfold applyBlock, appliedDiffs. simpl.
    rewrite !appendAll_app, <- !app_assoc. reflexivity.
Qed.

(** The two loops compute the change of section 4.1. *)
Lemma replayEntry_specChange tx ce rpbs apbs :
  Forall2 (fetched tx) (revertedBlocks ce) rpbs ->
  Forall2 (fetched tx) (appliedBlocks ce) apbs ->
  replayEntry tx ce = Val (specChange rpbs apbs).
Proof.
  intros Hr Ha. unfold replayEntry.
  rewrite (blockLoop_fetched _ _ _ _ Hr). simpl.
  rewrite (blockLoop_fetched _ _ _ _ Ha).
  by rewrite foldl_applyBlock, foldl_revertBlock.
Qed.

Lemma computeConsensusChange_out_of_range cs tx i :
  (i < 0 \/ i >= Z.of_nat (length (changeLog cs)))%Z ->
  computeConsensusChange cs tx i = Val (zeroChange, Some boundsError).
Proof.
  intros Hi. unfold computeConsensusChange.
  destruct Hi as [Hi|Hi].
  - by rewrite (bool_decide_eq_true_2 _ Hi).
  - rewrite (bool_decide_eq_true_2 (i >= _)%Z Hi). by rewrite orb_true_r.
Qed.

Lemma computeConsensusChange_in_range cs tx i ce :
  (0 <= i)%Z -> changeLog cs !! Z.to_nat i = Some ce ->
  computeConsensusChange cs tx i
  = res_bind (replayEntry tx ce) (fun cc => Val (cc, None)).
Proof.
  intros Hi Hce. unfold computeConsensusChange.
  apply lookup_lt_Some in Hce as Hlt.
  rewrite bool_decide_eq_false_2, bool_decide_eq_false_2 by lia.
  simpl. by rewrite Hce.
Qed.

Lemma computeConsensusChange_specChange cs tx i ce rpbs apbs :
  (0 <= i)%Z -> changeLog cs !! Z.to_nat i = Some ce ->
  Forall2 (fetched tx) (revertedBlocks ce) rpbs ->
  Forall2 (fetched tx) (appliedBlocks ce) apbs ->
  computeConsensusChange cs tx i = Val (specChange rpbs apbs, None).
Proof.
  intros Hi Hce Hr Ha.
  rewrite (computeConsensusChange_in_range _ _ _ _ Hi Hce).
  by rewrite (replayEntry_specChange _ _ _ _ Hr Ha).
Qed.

(** C1: for an in-range entry whose blocks are all in the store, the pool
    diffs of the computed change are, for each reverted block in turn, the
    block's stored pool diffs in reverse order, each with its direction set
    to Revert whatever it was, followed by the applied blocks' pool diffs;
    every pool diff contributed by a reverted block has direction Revert. *)
Theorem reverted_pool_diffs_forced_Revert cs tx i ce rpbs apbs :
  (0 <= i)%Z -> changeLog cs !! Z.to_nat i = Some ce ->
  Forall2 (found tx) (revertedBlocks ce) rpbs ->
  Forall2 (found tx) (appliedBlocks ce) apbs ->
  exists cc,
    computeConsensusChange cs tx i = Val (cc, None)
    /\ SiafundPoolDiffs cc
       = (rpbs ≫= fun pb => forcedRevert <$> reverse (pb_SiafundPoolDiffs pb))
         ++ appliedDiffs pb_SiafundPoolDiffs apbs
    /\ Forall (fun d => Direction d = DiffRevert)
         (take (length (revertedDiffs forcedRevert pb_SiafundPoolDiffs rpbs))
            (SiafundPoolDiffs cc))
    /\ (forall d : Diff SiafundPool,
          Direction (forcedRevert d) = DiffRevert /\ body (forcedRevert d) = body d).
Proof.
  intros Hi Hce Hr%Forall2_found_fetched Ha%Forall2_found_fetched.
  exists (specChange rpbs apbs). split.
  { by apply (computeConsensusChange_specChange _ _ _ ce). }
  split; [done|]. split; [|done].
  simpl. rewrite take_app_length.
  unfold revertedDiffs. apply Forall_bind, Forall_forall. intros pb _.
  apply Forall_fmap, Forall_forall. by intros d _.
Qed.

(** C2: for an in-range entry whose blocks are all in the store, the
    computed change lists the reverted blocks in the entry's order, and each
    of the four directional diff sequences starts with, for each reverted
    block in turn, the block's stored diffs in reverse order with the
    direction inverted (Apply becomes Revert, Revert becomes Apply). *)
Theorem reverted_blocks_diffs_reversed_inverted cs tx i ce rpbs apbs :
  (0 <= i)%Z -> changeLog cs !! Z.to_nat i = Some ce ->
  Forall2 (found tx) (revertedBlocks ce) rpbs ->
  Forall2 (found tx) (appliedBlocks ce) apbs ->
  exists cc,
    computeConsensusChange cs tx i = Val (cc, None)
    /\ RevertedBlocks cc = pb_Block <$> rpbs
    /\ SiacoinOutputDiffs cc
       = (rpbs ≫= fun pb => inverted <$> reverse (pb_SiacoinOutputDiffs pb))
         ++ appliedDiffs pb_SiacoinOutputDiffs apbs
    /\ FileContractDiffs cc
       = (rpbs ≫= fun pb => inverted <$> reverse (pb_FileContractDiffs pb))
         ++ appliedDiffs pb_FileContractDiffs apbs
    /\ SiafundOutputDiffs cc
       = (rpbs ≫= fun pb => inverted <$> reverse (pb_SiafundOutputDiffs pb))
         ++ appliedDiffs pb_SiafundOutputDiffs apbs
    /\ DelayedSiacoinOutputDiffs cc
       = (rpbs ≫= fun pb => inverted <$> reverse (pb_DelayedSiacoinOutputDiffs pb))
         ++ appliedDiffs pb_DelayedSiacoinOutputDiffs apbs
    /\ opposite DiffApply = DiffRevert /\ opposite DiffRevert = DiffApply.
Proof.
  intros Hi Hce Hr%Forall2_found_fetched Ha%Forall2_found_fetched.
  exists (specChange rpbs apbs). split.
  { by apply (computeConsensusChange_specChange _ _ _ ce). }
  repeat split; auto using opposite_Apply, opposite_Revert.
Qed.

(** C3: for an in-range entry whose blocks are all in the store, the
    computed change lists the applied blocks in the entry's order, and each
    of the five diff sequences is the reverted blocks' contribution followed
    by, for each applied block in turn, the block's stored diffs in stored
    order and unchanged. *)
Theorem applied_blocks_diffs_after_reverted cs tx i ce rpbs apbs :
  (0 <= i)%Z -> changeLog cs !! Z.to_nat i = Some ce ->
  Forall2 (found tx) (revertedBlocks ce) rpbs ->
  Forall2 (found tx) (appliedBlocks ce) apbs ->
  exists cc,
    computeConsensusChange cs tx i = Val (cc, None)
    /\ AppliedBlocks cc = pb_Block <$> apbs
    /\ SiacoinOutputDiffs cc
       = revertedDiffs inverted pb_SiacoinOutputDiffs rpbs
         ++ (apbs ≫= pb_SiacoinOutputDiffs)
    /\ FileContractDiffs cc
       = revertedDiffs inverted pb_FileContractDiffs rpbs
         ++ (apbs ≫= pb_FileContractDiffs)
    /\ SiafundOutputDiffs cc
       = revertedDiffs inverted pb_SiafundOutputDiffs rpbs
         ++ (apbs ≫= pb_SiafundOutputDiffs)
    /\ DelayedSiacoinOutputDiffs cc
       = revertedDiffs inverted pb_DelayedSiacoinOutputDiffs rpbs
         ++ (apbs ≫= pb_DelayedSiacoinOutputDiffs)
    /\ SiafundPoolDiffs cc
       = revertedDiffs forcedRevert pb_SiafundPoolDiffs rpbs
         ++ (apbs ≫= pb_SiafundPoolDiffs).
Proof.
  intros Hi Hce Hr%Forall2_found_fetched Ha%Forall2_found_fetched.
  exists (specChange rpbs apbs). split.
  { by apply (computeConsensusChange_specChange _ _ _ ce). }
  repeat split.
Qed.

Lemma ConsensusChange_computeConsensusChange cs i cc :
  computeConsensusChange cs (db cs) i = Val (cc, None) ->
  ConsensusSet_ConsensusChange cs i = Val (cc, None).
Proof. unfold ConsensusSet_ConsensusChange, View. by intros ->. Qed.

(** C4: with every block ID of the entry present in the store, the change
    computer and the public query return the bounds error when the index
    is negative or not below the length of the log, and return a change
    and no error for every other index: an error is returned exactly for
    the indices out of range. *)
Theorem ConsensusChange_error_iff_out_of_range cs i :
  (forall ce, (0 <= i)%Z -> changeLog cs !! Z.to_nat i = Some ce ->
     Forall (present (db cs)) (entryIDs ce)) ->
  ((i < 0 \/ i >= Z.of_nat (length (changeLog cs)))%Z ->
     computeConsensusChange cs (db cs) i = Val (zeroChange, Some boundsError)
     /\ ConsensusSet_ConsensusChange cs i = Val (zeroChange, Some boundsError))
  /\ ((0 <= i < Z.of_nat (length (changeLog cs)))%Z ->
      exists cc,
        computeConsensusChange cs (db cs) i = Val (cc, None)
        /\ ConsensusSet_ConsensusChange cs i = Val (cc, None))
  /\ ((exists cc e, ConsensusSet_ConsensusChange cs i = Val (cc, Some e))
      <-> (i < 0 \/ i >= Z.of_nat (length (changeLog cs)))%Z).
Proof.
  intros Hstore.
  assert ((i < 0 \/ i >= Z.of_nat (length (changeLog cs)))%Z ->
          computeConsensusChange cs (db cs) i = Val (zeroChange, Some boundsError)
          /\ ConsensusSet_ConsensusChange cs i
             = Val (zeroChange, Some boundsError)) as Hout.
  { intros Hi.
    pose proof (computeConsensusChange_out_of_range cs (db cs) i Hi) as Hc.
    split; [done|]. unfold ConsensusSet_ConsensusChange, View. by rewrite Hc. }
  assert ((0 <= i < Z.of_nat (length (changeLog cs)))%Z ->
          exists cc,
            computeConsensusChange cs (db cs) i = Val (cc, None)
            /\ ConsensusSet_ConsensusChange cs i = Val (cc, None)) as Hin.
  { intros [Hi0 Hi1].
    destruct (lookup_lt_is_Some_2 (changeLog cs) (Z.to_nat i)) as [ce Hce]; [lia|].
    specialize (Hstore ce Hi0 Hce). unfold entryIDs in Hstore.
    apply Forall_app in Hstore as [Hr Ha].
    apply Forall_present_found in Hr as [rpbs Hr].
    apply Forall_present_found in Ha as [apbs Ha].
    exists (specChange rpbs apbs).
    assert (computeConsensusChange cs (db cs) i = Val (specChange rpbs apbs, None)) as Hc.
    { apply (computeConsensusChange_specChange _ _ _ ce);
        auto using Forall2_found_fetched. }
    split; [done|]. by apply ConsensusChange_computeConsensusChange. }
  split; [done|]. split; [done|]. split.
  - intros (cc & e & He).
    destruct (decide (0 <= i < Z.of_nat (length (changeLog cs)))%Z) as [Hi|Hi];
      [|lia].
    destruct (Hin Hi) as (cc' & _ & Hcc'). congruence.
  - intros Hi. exists zeroChange, boundsError. by apply Hout.
Qed.

(** *** Failing lookups *)

Lemma blockLoop_not_OutOfFuel step tx ids :
  forall cc, blockLoop step tx ids cc <> OutOfFuel.
Proof.
  induction ids as [|id ids IH]; intros cc; simpl; [done|].
  destruct (getBlockMap tx id) as [[b|] [e|]]; try done; by destruct DEBUG.
Qed.

(** A loop over block IDs one of whose lookups fails panics, when a failed
    lookup hands back no record. *)
Lemma blockLoop_failure_panics step tx ids :
  Forall (noRecordOnError tx) ids ->
  Exists (lookupFails tx) ids ->
  forall cc, exists v, blockLoop step tx ids cc = Panic v.
Proof.
  intros Hstrict Hfails.
  induction Hfails as [id ids Hid|id ids _ IH]; intros cc;
    apply Forall_cons in Hstrict as [Hno Hstrict]; simpl;
    unfold lookupFails in *; unfold noRecordOnError in Hno;
    destruct (getBlockMap tx id) as [r [e|]] eqn:Hg; simpl in *.
  - rewrite (Hno r e eq_refl). destruct DEBUG; eauto.
  - done.
  - rewrite (Hno r e eq_refl). destruct DEBUG; eauto.
  - destruct r as [b|]; [by apply IH|eauto].
Qed.

(** The panic of the first failing lookup, the lookups before it having
    found their blocks: the error of the lookup in a debug build, the
    dereference of the nil record in a release build. *)
Lemma blockLoop_missing_panic step tx pre pbs id post e :
  Forall2 (found tx) pre pbs ->
  getBlockMap tx id = (None, Some e) ->
  forall cc,
    blockLoop step tx (pre ++ id :: post) cc
    = Panic (if DEBUG then PanicError e else PanicRuntime NilDereference).
Proof.
  intros Hpre Hid.
  induction Hpre as [|id' pb pre pbs Hf _ IH]; intros cc; simpl.
  - rewrite Hid. by destruct DEBUG.
  - unfold found in Hf. rewrite Hf. apply IH.
Qed.

Lemma replayEntry_failure_panics tx ce :
  Forall (noRecordOnError tx) (entryIDs ce) ->
  Exists (lookupFails tx) (entryIDs ce) ->
  exists v, replayEntry tx ce = Panic v.
Proof.
  unfold entryIDs, replayEntry.
  intros [Hsr Hsa]%Forall_app [Hfr|Hfa]%Exists_app.
  - destruct (blockLoop_failure_panics revertBlock tx _ Hsr Hfr zeroChange)
      as [v ->]. by exists v.
  - pose proof (blockLoop_not_OutOfFuel revertBlock tx (revertedBlocks ce)
                  zeroChange) as Hfuel.
    destruct (blockLoop revertBlock tx (revertedBlocks ce) zeroChange)
      as [cc1|v|]; simpl; [|by exists v|done].
    apply (blockLoop_failure_panics applyBlock tx _ Hsa Hfa).
Qed.

Lemma replayEntry_missing_panic tx ce pre pbs id post e :
  entryIDs ce = pre ++ id :: post ->
  Forall2 (found tx) pre pbs ->
  getBlockMap tx id = (None, Some e) ->
  replayEntry tx ce
  = Panic (if DEBUG then PanicError e else PanicRuntime NilDereference).
Proof.
  intros Hids Hpre Hid. unfold replayEntry, entryIDs in *.
  apply app_eq_app in Hids as [l [[Hr Ha]|[Hr Ha]]].
  - destruct l as [|id' l]; simpl in Ha.
    + rewrite app_nil_r in Hr. subst pre.
      rewrite (blockLoop_fetched _ _ _ _ (Forall2_found_fetched _ _ _ Hpre)).
      simpl. rewrite <- Ha.
      by apply (blockLoop_missing_panic _ _ [] [] id post e).
    + injection Ha as <- ->. rewrite Hr.
      by rewrite (blockLoop_missing_panic _ _ pre pbs id l e).
  - subst pre. apply Forall2_app_inv_l in Hpre as (rpbs & lpbs & Hrev & Hl & _).
    rewrite (blockLoop_fetched _ _ _ _ (Forall2_found_fetched _ _ _ Hrev)).
    simpl. rewrite Ha.
    by apply (blockLoop_missing_panic _ _ l lpbs id post e).
Qed.

(** C5: when the lookup of a block ID of the entry fails, a failed lookup
    handing back no record, the change computer does not go on to a
    change: it panics, in every build. The public query on the same
    database panics with the same value, and so does the notifier when the
    entry is the last of the log, before any subscriber is called. The
    panic of the first failing lookup, the blocks before it being in the
    store, carries the lookup's error in a debug build and is the
    dereference of the nil record in a release build. *)
Theorem lookup_failure_is_fatal cs tx i ce :
  (0 <= i)%Z -> changeLog cs !! Z.to_nat i = Some ce ->
  Forall (noRecordOnError tx) (entryIDs ce) ->
  Exists (lookupFails tx) (entryIDs ce) ->
  (exists v,
     computeConsensusChange cs tx i = Panic v
     /\ (tx = db cs ->
         ConsensusSet_ConsensusChange cs i = Panic v
         /\ (i = (Z.of_nat (length (changeLog cs)) - 1)%Z ->
             forall ce', readlockUpdateSubscribers cs ce' = ([], Panic v))))
  /\ (forall pre pbs id post e,
        entryIDs ce = pre ++ id :: post ->
        Forall2 (found tx) pre pbs ->
        getBlockMap tx id = (None, Some e) ->
        computeConsensusChange cs tx i
        = Panic (if DEBUG then PanicError e else PanicRuntime NilDereference)).
Proof.
  intros Hi Hce Hstrict Hfails.
  pose proof (computeConsensusChange_in_range _ tx _ _ Hi Hce) as Hc.
  split.
  - destruct (replayEntry_failure_panics tx ce Hstrict Hfails) as [v Hv].
    rewrite Hv in Hc. simpl in Hc. exists v. split; [done|].
    intros ->. split.
    + unfold ConsensusSet_ConsensusChange, View. by rewrite Hc.
    + intros -> ce'. unfold readlockUpdateSubscribers, View. by rewrite Hc.
  - intros pre pbs id post e Hids Hpre Hid.
    by rewrite Hc, (replayEntry_missing_panic _ _ _ _ _ _ _ Hids Hpre Hid).
Qed.

(** *** Determinism *)

Lemma blockLoop_ext step tx1 tx2 ids :
  Forall (fun id => getBlockMap tx1 id = getBlockMap tx2 id) ids ->
  forall cc, blockLoop step tx1 ids cc = blockLoop step tx2 ids cc.
Proof.
  induction 1 as [|id ids Hid _ IH]; intros cc; simpl; [done|].
  rewrite Hid. destruct (getBlockMap tx2 id) as [[b|] [e|]]; auto.
  by destruct DEBUG.
Qed.

Lemma replayEntry_ext tx1 tx2 ce :
  Forall (fun id => getBlockMap tx1 id = getBlockMap tx2 id) (entryIDs ce) ->
  replayEntry tx1 ce = replayEntry tx2 ce.
Proof.
  unfold entryIDs, replayEntry. intros [Hr Ha]%Forall_app.
  rewrite (blockLoop_ext _ _ _ _ Hr).
  destruct (blockLoop revertBlock tx2 (revertedBlocks ce) zeroChange); simpl; auto.
  by apply blockLoop_ext.
Qed.

Lemma computeConsensusChange_ext cs1 cs2 tx1 tx2 i :
  changeLog cs1 = changeLog cs2 ->
  (forall ce, changeLog cs1 !! Z.to_nat i = Some ce ->
     Forall (fun id => getBlockMap tx1 id = getBlockMap tx2 id) (entryIDs ce)) ->
  computeConsensusChange cs1 tx1 i = computeConsensusChange cs2 tx2 i.
Proof.
  intros Hlog Hstore. unfold computeConsensusChange. rewrite <- Hlog.
  destruct (bool_decide (i < 0)%Z || bool_decide (i >= _)%Z); [done|].
  destruct (changeLog cs1 !! Z.to_nat i) as [ce|] eqn:Hce; [|done].
  by rewrite (replayEntry_ext tx1 tx2 ce) by auto.
Qed.

(** C9: the result of the change computer at an in-range index is a
    function of the change log and of what the store answers for the block
    IDs of that entry: two calls with the same index, equal logs and stores
    that agree on those IDs have equal results, whatever else differs. *)
Theorem computeConsensusChange_deterministic cs1 cs2 tx1 tx2 i :
  (0 <= i < Z.of_nat (length (changeLog cs1)))%Z ->
  changeLog cs1 = changeLog cs2 ->
  (forall ce, changeLog cs1 !! Z.to_nat i = Some ce ->
     Forall (fun id => getBlockMap tx1 id = getBlockMap tx2 id) (entryIDs ce)) ->
  computeConsensusChange cs1 tx1 i = computeConsensusChange cs2 tx2 i.
Proof. intros _. apply computeConsensusChange_ext. Qed.

(** ** The notifier *)

Lemma bind_lift_Val {E A B} (a : A) (k : A -> run E B) :
  bind (lift (Val a)) k = k a.
Proof. unfold bind, lift. by destruct (k a). Qed.

Lemma appendIDs_fmap (blocks : list Block) ids :
  appendIDs ids blocks = ids ++ (ID <$> blocks).
Proof.
  unfold appendIDs. revert ids.
  induction blocks as [|b blocks IH]; intros ids; simpl.
  - by rewrite app_nil_r.
  - by rewrite IH, <- app_assoc.
Qed.

Lemma debugPanic_skip {E} (err : option error) :
  err = None \/ DEBUG = false -> debugPanic (E:=E) err = ret tt.
Proof.
  unfold debugPanic. intros [->|Hrel]; [done|]. rewrite Hrel. by destruct err.
Qed.

(** The two loops over the subscriber lists make the calls of one
    notification pass. *)
Lemma notify_notification cs cc :
  (forRange (subscribers cs) (fun subscriber =>
     emit (ProcessConsensusChange subscriber cc)) >>
   forRange (digestSubscribers cs) (fun ds =>
     emit (ProcessConsensusDigest ds (appendIDs [] (RevertedBlocks cc))
             (appendIDs [] (AppliedBlocks cc)))))
  = (notification cs cc, Val tt).
Proof.
  rewrite !forRange_emit, !appendIDs_fmap. reflexivity.
Qed.

(** C8: when the change computer hands the notifier a change (with no
    error, or in a release build), the notifier calls ProcessConsensusChange
    with that change on every full subscriber in registration order, then
    ProcessConsensusDigest on every digest subscriber in registration
    order, with the IDs of the reverted and of the applied blocks of that
    same change, in the same order. *)
Theorem readlockUpdateSubscribers_notification cs ce cc err :
  computeConsensusChange cs (db cs) (Z.of_nat (length (changeLog cs)) - 1)
  = Val (cc, err) ->
  err = None \/ DEBUG = false ->
  readlockUpdateSubscribers cs ce
  = (((fun s => ProcessConsensusChange s cc) <$> subscribers cs)
     ++ ((fun ds => ProcessConsensusDigest ds (ID <$> RevertedBlocks cc)
                      (ID <$> AppliedBlocks cc)) <$> digestSubscribers cs),
     Val tt).
Proof.
  intros Hc Herr. unfold readlockUpdateSubscribers, View.
  rewrite Hc, bind_lift_Val, (debugPanic_skip _ Herr).
  change (bind (ret tt) ?k) with (bind (E:=call) (lift (Val tt)) k).
  rewrite bind_lift_Val. apply notify_notification.
Qed.

Lemma last_lookup_Z {A} (l : list A) (x : A) :
  last l = Some x ->
  (0 <= Z.of_nat (length l) - 1)%Z
  /\ l !! Z.to_nat (Z.of_nat (length l) - 1) = Some x.
Proof.
  intros Hl. rewrite last_lookup in Hl.
  destruct l as [|y l]; [done|]. simpl length in *. split; [lia|].
  replace (Z.to_nat (Z.of_nat (S (length l)) - 1)) with (pred (S (length l))) by lia.
  done.
Qed.

(** C10: the notifier does not read its argument: whatever entry it is
    given, it computes the change at the index of the last entry of the
    log and delivers that one; the change delivered is the replay of the
    last entry of the log. *)
Theorem readlockUpdateSubscribers_ignores_entry cs ce :
  (forall ce', readlockUpdateSubscribers cs ce' = readlockUpdateSubscribers cs ce)
  /\ readlockUpdateSubscribers cs ce
     = bind
         (lift (computeConsensusChange cs (db cs)
                  (Z.of_nat (length (changeLog cs)) - 1)))
         (fun '(cc, err) =>
            bind (debugPanic err) (fun _ => (notification cs cc, Val tt)))
  /\ (forall ce0, last (changeLog cs) = Some ce0 ->
        computeConsensusChange cs (db cs) (Z.of_nat (length (changeLog cs)) - 1)
        = res_bind (replayEntry (db cs) ce0) (fun cc => Val (cc, None))).
Proof.
  split; [done|]. split.
  - unfold readlockUpdateSubscribers, View.
    destruct (computeConsensusChange _ _ _) as [[cc err]| |]; [|done..].
    rewrite !bind_lift_Val. by rewrite <- notify_notification.
  - intros ce0 [Hi Hce]%last_lookup_Z.
    by apply computeConsensusChange_in_range.
Qed.

(** ** Subscription and bootstrap *)

Lemma computeConsensusChange_present cs tx i :
  (0 <= i < Z.of_nat (length (changeLog cs)))%Z ->
  (forall ce, changeLog cs !! Z.to_nat i = Some ce ->
     Forall (present tx) (entryIDs ce)) ->
  exists cc, computeConsensusChange cs tx i = Val (cc, None).
Proof.
  intros [Hi0 Hi1] Hstore.
  destruct (lookup_lt_is_Some_2 (changeLog cs) (Z.to_nat i)) as [ce Hce]; [lia|].
  specialize (Hstore ce Hce). unfold entryIDs in Hstore.
  apply Forall_app in Hstore as [Hr Ha].
  apply Forall_present_found in Hr as [rpbs Hr].
  apply Forall_present_found in Ha as [apbs Ha].
  exists (specChange rpbs apbs).
  apply (computeConsensusChange_specChange _ _ _ ce);
    auto using Forall2_found_fetched.
Qed.

(** The backfill loop over a list of in-range indices. *)
Lemma backfill_loop cs tx (s : Subscriber) (indices : list Z) :
  Forall (fun i => exists cc, computeConsensusChange cs tx i = Val (cc, None))
    indices ->
  exists ccs,
    Forall2 (fun i cc => computeConsensusChange cs tx i = Val (cc, None))
      indices ccs
    /\ forRange indices (fun i =>
         let* (cc, err) := lift (computeConsensusChange cs tx i) in
         debugPanic err >>
         emit (ProcessConsensusChange s cc))
       = (ProcessConsensusChange s <$> ccs, Val tt).
Proof.
  induction 1 as [|i indices [cc Hcc] _ (ccs & Hccs & IH)].
  - exists []. split; [constructor|done].
  - exists (cc :: ccs). split; [by constructor|].
    cbn [forRange]. rewrite IH, Hcc. reflexivity.
Qed.

(** C6: ConsensusSetSubscribe returns the consensus set with the subscriber
    appended to the subscribers. With every block of the log present in the
    store, it has by then called ProcessConsensusChange on the subscriber
    once per index of the log, in increasing index order, with the change
    the change computer returns at that index. With an empty log it makes
    no call. *)
Theorem ConsensusSetSubscribe_backfill cs (s : Subscriber) :
  (logInStore cs ->
   exists ccs,
     Forall2 (fun i cc => computeConsensusChange cs (db cs) i = Val (cc, None))
       (Z.of_nat <$> seq 0 (length (changeLog cs))) ccs
     /\ length ccs = length (changeLog cs)
     /\ ConsensusSetSubscribe cs s
        = (ProcessConsensusChange s <$> ccs, Val (withSubscriber cs s)))
  /\ (changeLog cs = [] ->
      ConsensusSetSubscribe cs s = ([], Val (withSubscriber cs s))).
Proof.
  split.
  - intros Hstore.
    destruct (backfill_loop (withSubscriber cs s) (db cs) s
                (Z.of_nat <$> seq 0 (length (changeLog cs)))) as (ccs & Hccs & Hloop).
    { apply Forall_fmap, Forall_forall. intros n Hn%elem_of_seq. simpl.
      apply computeConsensusChange_present; simpl; [lia|].
      intros ce Hce. rewrite Nat2Z.id in Hce.
      unfold logInStore in Hstore.
      by apply (Forall_lookup_1 _ _ _ _ Hstore Hce). }
    exists ccs. split; [|split].
    + eapply Forall2_impl; [exact Hccs|]. intros i cc <-. simpl.
      apply computeConsensusChange_ext; [done|].
      intros ce _. by apply Forall_forall.
    + apply Forall2_length in Hccs. by rewrite <- Hccs, length_fmap, length_seq.
    + unfold ConsensusSetSubscribe, View. simpl.
      change (withSubscriber cs s) with
        {| db := db cs; changeLog := changeLog cs;
           subscribers := subscribers cs ++ [s];
           digestSubscribers := digestSubscribers cs |} in Hloop.
      simpl in Hloop. rewrite Hloop. simpl.
      rewrite app_nil_r. reflexivity.
  - intros Hlog. unfold ConsensusSetSubscribe, View, withSubscriber. simpl.
    rewrite Hlog. reflexivity.
Qed.

Lemma pathLoop_unfold fuel tx height i currentPath :
  pathLoop fuel tx height i currentPath =
  if negb (bool_decide (i <= height)%Z) then Val (currentPath, None)
  else
    match fuel with
    | O => OutOfFuel
    | S fuel' =>
        let '(id, err) := getPath tx i in
        match err with
        | Some e => Val (currentPath, Some e)
        | None => pathLoop fuel' tx height ((i + 1) mod 2 ^ 64)%Z (currentPath ++ [id])
        end
    end.
Proof. by destruct fuel. Qed.

(** With enough fuel, below the largest height and with every height of
    the path readable, the loop reads the path from [i] to [height]. *)
Lemma pathLoop_reads_path tx height fuel :
  (height < 2 ^ 64 - 1)%Z ->
  forall i currentPath,
    (0 <= i <= height + 1)%Z ->
    (height + 1 - i <= Z.of_nat fuel)%Z ->
    Forall (fun h => (getPath tx h).2 = None) (seqZ i (height + 1 - i)) ->
    pathLoop fuel tx height i currentPath
    = Val (currentPath ++ ((fun h => (getPath tx h).1) <$> seqZ i (height + 1 - i)),
           None).
Proof.
  intros Hmax. induction fuel as [|fuel IH]; intros i currentPath Hi Hfuel Hpath;
    rewrite pathLoop_unfold; case_bool_decide as Hle; simpl.
  - lia.
  - replace (height + 1 - i)%Z with 0%Z by lia. by rewrite app_nil_r.
  - rewrite seqZ_cons in Hpath |- * by lia.
    apply Forall_cons in Hpath as [Hp Hpath].
    destruct (getPath tx i) as [id err] eqn:Hg. simpl in Hp. subst err.
    rewrite Z.mod_small by lia.
    replace (Z.pred (height + 1 - i)) with (height + 1 - (i + 1))%Z in * by lia.
    replace (Z.succ i) with (i + 1)%Z in * by lia.
    rewrite IH by (auto; lia).
    rewrite fmap_cons, Hg. simpl. by rewrite <- app_assoc.
  - replace (height + 1 - i)%Z with 0%Z by lia. by rewrite app_nil_r.
Qed.

(** C7: ConsensusSetDigestSubscribe returns the consensus set with the
    subscriber appended to the digest subscribers, having made exactly one
    call on it: ProcessConsensusDigest with no reverted ID and, as applied
    IDs, the IDs of the best path from height 0 to the current height, all
    read from the same transaction. At height 0 these are the ID of the
    genesis block alone. The current height is below the largest [uint64],
    every height up to it has a block on the path, and the loop is given
    more iterations than the height. *)
Theorem ConsensusSetDigestSubscribe_baseline fuel cs (s : DigestSubscriber) :
  (0 <= blockHeight (db cs) < 2 ^ 64 - 1)%Z ->
  Forall (fun h => (getPath (db cs) h).2 = None)
    (seqZ 0 (blockHeight (db cs) + 1)) ->
  (blockHeight (db cs) < Z.of_nat fuel)%Z ->
  ConsensusSetDigestSubscribe fuel cs s
  = ([ProcessConsensusDigest s [] (bestPath (db cs))],
     Val (withDigestSubscriber cs s))
  /\ (blockHeight (db cs) = 0%Z -> bestPath (db cs) = [(getPath (db cs) 0).1]).
Proof.
  intros [Hh0 Hh1] Hpath Hfuel. split.
  - unfold ConsensusSetDigestSubscribe, View. simpl.
    rewrite (pathLoop_reads_path _ _ _ Hh1);
      rewrite ?Z.sub_0_r; [|lia|lia|done].
    reflexivity.
  - intros Hz. unfold bestPath. by rewrite Hz.
Qed.

(** ** Further properties of the change computer *)

(** A loop over block IDs that returns has gone on with a record at every
    lookup, and is the left fold of its body over those records. *)
Lemma blockLoop_Val_inv step tx ids :
  forall cc cc',
    blockLoop step tx ids cc = Val cc' ->
    exists pbs, Forall2 (fetched tx) ids pbs /\ cc' = foldl step cc pbs.
Proof.
  induction ids as [|id ids IH]; intros cc cc' Hloop; simpl in Hloop.
  - injection Hloop as <-. exists []. split; [constructor|done].
  - destruct (getBlockMap tx id) as [r err] eqn:Hg.
    assert (exists b, r = Some b /\ (err = None \/ DEBUG = false)
                      /\ blockLoop step tx ids (step cc b) = Val cc')
      as (b & -> & Herr & Hrest).
    { destruct err as [e|], r as [b|]; try done.
      - destruct DEBUG eqn:Hd; [done|]. exists b. auto.
      - by destruct DEBUG.
      - exists b. auto. }
    destruct (IH _ _ Hrest) as (pbs & Hpbs & ->).
    exists (b :: pbs). split; [|done].
    constructor; [|done]. unfold fetched, returned. by rewrite Hg.
Qed.

Lemma replayEntry_not_OutOfFuel tx ce : replayEntry tx ce <> OutOfFuel.
Proof.
  unfold replayEntry.
  destruct (blockLoop revertBlock tx (revertedBlocks ce) zeroChange) eqn:Hr; simpl.
  - apply blockLoop_not_OutOfFuel.
  - done.
  - by apply blockLoop_not_OutOfFuel in Hr.
Qed.

Lemma computeConsensusChange_not_OutOfFuel cs tx i :
  computeConsensusChange cs tx i <> OutOfFuel.
Proof.
  unfold computeConsensusChange.
  destruct (bool_decide (i < 0)%Z || bool_decide (i >= _)%Z); [done|].
  destruct (changeLog cs !! Z.to_nat i) as [ce|]; [|done].
  pose proof (replayEntry_not_OutOfFuel tx ce).
  by destruct (replayEntry tx ce).
Qed.

(** X1: whatever the change computer returns is accounted for. A returned
    error is the bounds error, comes with the zero change and only for an
    index out of range. A returned change comes with a nil error, only for
    an index in range, and is the change of section 4.1 built from the
    records the lookups of the entry handed back. *)
Theorem computeConsensusChange_returned cs tx i cc err :
  computeConsensusChange cs tx i = Val (cc, err) ->
  (err = Some boundsError /\ cc = zeroChange
   /\ (i < 0 \/ i >= Z.of_nat (length (changeLog cs)))%Z)
  \/ (err = None /\ (0 <= i < Z.of_nat (length (changeLog cs)))%Z
      /\ exists ce rpbs apbs,
           changeLog cs !! Z.to_nat i = Some ce
           /\ Forall2 (fetched tx) (revertedBlocks ce) rpbs
           /\ Forall2 (fetched tx) (appliedBlocks ce) apbs
           /\ cc = specChange rpbs apbs).
Proof.
  unfold computeConsensusChange. intros Hc.
  destruct (decide (i < 0 \/ i >= Z.of_nat (length (changeLog cs)))%Z) as [Hi|Hi].
  - left. rewrite (proj2 (orb_true_iff _ _)) in Hc.
    + injection Hc as <- <-. done.
    + destruct Hi; [left|right]; by apply bool_decide_eq_true_2.
  - right.
    rewrite bool_decide_eq_false_2, bool_decide_eq_false_2 in Hc by lia.
    simpl in Hc.
    destruct (changeLog cs !! Z.to_nat i) as [ce|] eqn:Hce; [|done].
    unfold replayEntry in Hc.
    destruct (blockLoop revertBlock tx (revertedBlocks ce) zeroChange)
      as [cc1| |] eqn:Hr; [|done..]. simpl in Hc.
    destruct (blockLoop applyBlock tx (appliedBlocks ce) cc1)
      as [cc2| |] eqn:Ha; [|done..]. simpl in Hc. injection Hc as <- <-.
    apply blockLoop_Val_inv in Hr as (rpbs & Hrpbs & ->).
    apply blockLoop_Val_inv in Ha as (apbs & Hapbs & ->).
    split; [done|]. split; [lia|].
    exists ce, rpbs, apbs. repeat split; try done.
    by rewrite foldl_applyBlock, foldl_revertBlock.
Qed.

Lemma computeConsensusChange_error_zero cs tx i cc e :
  computeConsensusChange cs tx i = Val (cc, Some e) -> cc = zeroChange.
Proof.
  unfold computeConsensusChange.
  destruct (bool_decide (i < 0)%Z || bool_decide (i >= _)%Z); [congruence|].
  destruct (changeLog cs !! Z.to_nat i) as [ce|]; [|done].
  by destruct (replayEntry tx ce).
Qed.

(** X2: the public query returns what the change computer returns on the
    database of the consensus set: replacing the change by the zero change
    when there is an error changes nothing, because the change computer
    only returns an error next to the zero change. *)
Theorem ConsensusChange_is_computeConsensusChange cs i :
  ConsensusSet_ConsensusChange cs i = computeConsensusChange cs (db cs) i.
Proof.
  unfold ConsensusSet_ConsensusChange, View.
  destruct (computeConsensusChange cs (db cs) i) as [[cc [e|]]| |] eqn:Hc; simpl;
    try done.
  by rewrite (computeConsensusChange_error_zero _ _ _ _ _ Hc).
Qed.

Lemma computeConsensusChange_prefix cs1 cs2 tx i more :
  changeLog cs2 = changeLog cs1 ++ more ->
  (0 <= i < Z.of_nat (length (changeLog cs1)))%Z ->
  computeConsensusChange cs2 tx i = computeConsensusChange cs1 tx i.
Proof.
  intros Hlog Hi. unfold computeConsensusChange.
  rewrite Hlog, length_app, Nat2Z.inj_add.
  rewrite !(bool_decide_eq_false_2 (i < 0)%Z) by lia.
  rewrite !(bool_decide_eq_false_2 (i >= _)%Z) by lia.
  simpl. by rewrite lookup_app_l by lia.
Qed.

(** X3: the change at an index does not depend on the entries after it,
    nor on the store's answers for other blocks: over a log extended by
    further entries and a store that agrees on the block IDs of the entry,
    every index of the shorter log gives the same result. *)
Theorem computeConsensusChange_stable_under_append cs1 cs2 tx1 tx2 i more :
  changeLog cs2 = changeLog cs1 ++ more ->
  (0 <= i < Z.of_nat (length (changeLog cs1)))%Z ->
  (forall ce, changeLog cs1 !! Z.to_nat i = Some ce ->
     Forall (fun id => getBlockMap tx1 id = getBlockMap tx2 id) (entryIDs ce)) ->
  computeConsensusChange cs2 tx2 i = computeConsensusChange cs1 tx1 i.
Proof.
  intros Hlog Hi Hstore.
  rewrite (computeConsensusChange_prefix cs1 cs2 tx2 i more Hlog Hi).
  symmetry. by apply computeConsensusChange_ext.
Qed.

(** ** Further properties of the notifier *)

Lemma readlockUpdateSubscribers_unfold cs ce :
  readlockUpdateSubscribers cs ce
  = bind
      (lift (computeConsensusChange cs (db cs)
               (Z.of_nat (length (changeLog cs)) - 1)))
      (fun '(cc, err) =>
         bind (debugPanic err) (fun _ => (notification cs cc, Val tt))).
Proof.
  unfold readlockUpdateSubscribers, View.
  destruct (computeConsensusChange _ _ _) as [[cc err]| |]; [|done..].
  rewrite !bind_lift_Val. by rewrite <- notify_notification.
Qed.

(** X4: a notification pass is all or nothing: either it panics before any
    subscriber is called, or it returns after the full notification of one
    change to every subscriber and every digest subscriber. *)
Theorem readlockUpdateSubscribers_all_or_nothing cs ce :
  (exists v, readlockUpdateSubscribers cs ce = ([], Panic v))
  \/ (exists cc, readlockUpdateSubscribers cs ce = (notification cs cc, Val tt)).
Proof.
  rewrite readlockUpdateSubscribers_unfold.
  pose proof (computeConsensusChange_not_OutOfFuel cs (db cs)
                (Z.of_nat (length (changeLog cs)) - 1)) as Hfuel.
  destruct (computeConsensusChange _ _ _) as [[cc err]|v|]; [| |done].
  - rewrite bind_lift_Val. unfold debugPanic.
    destruct err as [e|]; [destruct DEBUG|].
    + left. by exists (PanicError e).
    + right. by exists cc.
    + right. by exists cc.
  - left. by exists v.
Qed.

(** X5: on an empty log the notifier asks for the change at index -1. A
    debug build panics with the bounds error before any call; a release
    build notifies every subscriber of the zero change and every digest
    subscriber of two empty lists of IDs. *)
Theorem readlockUpdateSubscribers_empty_changeLog cs ce :
  changeLog cs = [] ->
  (DEBUG = true ->
   readlockUpdateSubscribers cs ce = ([], Panic (PanicError boundsError)))
  /\ (DEBUG = false ->
      readlockUpdateSubscribers cs ce
      = (((fun s => ProcessConsensusChange s zeroChange) <$> subscribers cs)
         ++ ((fun ds => ProcessConsensusDigest ds [] []) <$> digestSubscribers cs),
         Val tt)).
Proof.
  intros Hlog. rewrite readlockUpdateSubscribers_unfold.
  rewrite computeConsensusChange_out_of_range by (rewrite Hlog; simpl; lia).
  rewrite bind_lift_Val. unfold debugPanic.
  split; intros ->; reflexivity.
Qed.

Lemma Forall2_fmap_ID ids pbs :
  Forall2 (fun id pb => ID (pb_Block pb) = id) ids pbs ->
  ID <$> (pb_Block <$> pbs) = ids.
Proof.
  induction 1 as [|id pb ids pbs Hid _ IH]; [done|].
  by rewrite !fmap_cons, Hid, IH.
Qed.

(** X6: when the store keeps every block of the last entry of the log
    under the block's own ID, the digest the notifier hands to the digest
    subscribers is the pair of ID lists of that entry, as recorded in the
    log. *)
Theorem readlockUpdateSubscribers_digest_is_entry cs ce ce0 rpbs apbs :
  last (changeLog cs) = Some ce0 ->
  Forall2 (found (db cs)) (revertedBlocks ce0) rpbs ->
  Forall2 (found (db cs)) (appliedBlocks ce0) apbs ->
  Forall2 (fun id pb => ID (pb_Block pb) = id) (revertedBlocks ce0) rpbs ->
  Forall2 (fun id pb => ID (pb_Block pb) = id) (appliedBlocks ce0) apbs ->
  readlockUpdateSubscribers cs ce
  = (((fun s => ProcessConsensusChange s (specChange rpbs apbs)) <$> subscribers cs)
     ++ ((fun ds => ProcessConsensusDigest ds (revertedBlocks ce0)
                      (appliedBlocks ce0)) <$> digestSubscribers cs),
     Val tt).
Proof.
  intros [Hi Hce]%last_lookup_Z Hr Ha Hrid Haid.
  rewrite readlockUpdateSubscribers_unfold.
  rewrite (computeConsensusChange_specChange _ _ _ ce0 rpbs apbs)
    by auto using Forall2_found_fetched.
  rewrite bind_lift_Val. unfold debugPanic, notification.
  cbn [RevertedBlocks AppliedBlocks specChange].
  rewrite (Forall2_fmap_ID _ _ Hrid), (Forall2_fmap_ID _ _ Haid).
  reflexivity.
Qed.

(** ** Reverting against applying *)

Lemma reverse_bind_list {A B} (f : A -> list B) (l : list A) :
  reverse (l ≫= f) = reverse l ≫= (fun x => reverse (f x)).
Proof.
  induction l as [|x l IH]; [done|].
  rewrite bind_cons, reverse_app, IH, reverse_cons, bind_app.
  simpl. by rewrite app_nil_r.
Qed.

Lemma fmap_bind_list {A B C} (g : B -> C) (f : A -> list B) (l : list A) :
  g <$> (l ≫= f) = l ≫= (fun x => g <$> f x).
Proof.
  induction l as [|x l IH]; [done|].
  by rewrite !bind_cons, fmap_app, IH.
Qed.

Lemma revertedDiffs_reverse {B} (g : Diff B -> Diff B)
    (field : processedBlock -> list (Diff B)) pbs :
  revertedDiffs g field (reverse pbs) = g <$> reverse (appliedDiffs field pbs).
Proof.
  unfold revertedDiffs, appliedDiffs.
  by rewrite reverse_bind_list, fmap_bind_list.
Qed.

Lemma opposite_involutive (dir : DiffDirection) : opposite (opposite dir) = dir.
Proof. rewrite <- !negb_opposite. apply negb_involutive. Qed.

Lemma inverted_involutive {B} (d : Diff B) : inverted (inverted d) = d.
Proof. destruct d as [dir b]. unfold inverted. simpl. by rewrite opposite_involutive. Qed.

Lemma inverted_reverse_involutive {B} (l : list (Diff B)) :
  inverted <$> reverse (inverted <$> reverse l) = l.
Proof.
  rewrite <- fmap_reverse, reverse_involutive, <- list_fmap_compose.
  rewrite <- (list_fmap_id l) at 2. apply list_fmap_ext.
  intros ? d _. apply inverted_involutive.
Qed.

(** X7: an entry that reverts, last block first, the blocks another entry
    applied undoes it. Its reverted blocks are the applied blocks in
    reverse order; each of its four directional diff sequences is the
    other entry's sequence reversed and inverted, and reversing and
    inverting it again gives the applied sequence back. The pool diffs are
    the applied pool diffs reversed and all set to Revert, which loses the
    stored direction. *)
Theorem revert_undoes_apply cs tx i j ids pbs :
  (0 <= i)%Z -> (0 <= j)%Z ->
  changeLog cs !! Z.to_nat i
  = Some {| revertedBlocks := []; appliedBlocks := ids |} ->
  changeLog cs !! Z.to_nat j
  = Some {| revertedBlocks := reverse ids; appliedBlocks := [] |} ->
  Forall2 (found tx) ids pbs ->
  exists cca ccr,
    computeConsensusChange cs tx i = Val (cca, None)
    /\ computeConsensusChange cs tx j = Val (ccr, None)
    /\ RevertedBlocks ccr = reverse (AppliedBlocks cca)
    /\ AppliedBlocks ccr = [] /\ RevertedBlocks cca = []
    /\ SiacoinOutputDiffs ccr = inverted <$> reverse (SiacoinOutputDiffs cca)
    /\ FileContractDiffs ccr = inverted <$> reverse (FileContractDiffs cca)
    /\ SiafundOutputDiffs ccr = inverted <$> reverse (SiafundOutputDiffs cca)
    /\ DelayedSiacoinOutputDiffs ccr
       = inverted <$> reverse (DelayedSiacoinOutputDiffs cca)
    /\ SiafundPoolDiffs ccr = forcedRevert <$> reverse (SiafundPoolDiffs cca)
    /\ inverted <$> reverse (SiacoinOutputDiffs ccr) = SiacoinOutputDiffs cca
    /\ inverted <$> reverse (FileContractDiffs ccr) = FileContractDiffs cca
    /\ inverted <$> reverse (SiafundOutputDiffs ccr) = SiafundOutputDiffs cca
    /\ inverted <$> reverse (DelayedSiacoinOutputDiffs ccr)
       = DelayedSiacoinOutputDiffs cca.
Proof.
  intros Hi Hj Hcei Hcej Hfound.
  exists (specChange [] pbs), (specChange (reverse pbs) []).
  split.
  { apply (computeConsensusChange_specChange _ _ _ _ _ _ Hi Hcei); simpl;
      [constructor | by apply Forall2_found_fetched]. }
  split.
  { apply (computeConsensusChange_specChange _ _ _ _ _ _ Hj Hcej); simpl;
      [by apply Forall2_found_fetched, Forall2_reverse | constructor]. }
  simpl. rewrite !revertedDiffs_reverse, !app_nil_r, fmap_reverse.
  rewrite !inverted_reverse_involutive.
  repeat split.
Qed.

(** ** Further properties of the subscription *)

Lemma bind_assoc {E A B C} (m : run E A) (f : A -> run E B) (g : B -> run E C) :
  bind (bind m f) g = bind m (fun a => bind (f a) g).
Proof.
  destruct m as [t [a| |]]; simpl; [|done..].
  destruct (f a) as [t' [b| |]]; simpl; [|by rewrite ?app_nil_r..].
  destruct (g b) as [t'' r]. by rewrite app_assoc.
Qed.

Lemma forRange_app {E A} (l1 l2 : list A) (body : A -> run E unit) :
  forRange (l1 ++ l2) body = (forRange l1 body >> forRange l2 body).
Proof.
  induction l1 as [|x l1 IH]; simpl forRange.
  - change (ret tt) with (lift (E:=E) (Val tt)). by rewrite bind_lift_Val.
  - cbn [app forRange]. by rewrite IH, bind_assoc.
Qed.

Lemma computeConsensusChange_withSubscriber cs (s : Subscriber) tx i :
  computeConsensusChange (withSubscriber cs s) tx i = computeConsensusChange cs tx i.
Proof.
  apply computeConsensusChange_ext; [done|].
  intros ce _. by apply Forall_forall.
Qed.

Lemma ConsensusSetSubscribe_unfold cs (s : Subscriber) :
  ConsensusSetSubscribe cs s
  = (forRange (Z.of_nat <$> seq 0 (length (changeLog cs))) (fun i =>
       let* (cc, err) := lift (computeConsensusChange cs (db cs) i) in
       debugPanic err >>
       emit (ProcessConsensusChange s cc)) >>
     ret (withSubscriber cs s)).
Proof.
  unfold ConsensusSetSubscribe, View.
  change {| db := db cs; changeLog := changeLog cs;
            subscribers := subscribers cs ++ [s];
            digestSubscribers := digestSubscribers cs |}
    with (withSubscriber cs s).
  cbn [db changeLog withSubscriber]. reflexivity.
Qed.

(** The backfill loop over indices where the change computer returns. *)
Lemma backfill_returns cs tx (s : Subscriber) indices ccs :
  Forall2 (fun i cc => computeConsensusChange cs tx i = Val (cc, None))
    indices ccs ->
  forRange indices (fun i =>
    let* (cc, err) := lift (computeConsensusChange cs tx i) in
    debugPanic err >>
    emit (ProcessConsensusChange s cc))
  = (ProcessConsensusChange s <$> ccs, Val tt).
Proof.
  induction 1 as [|i cc indices ccs Hcc _ IH]; [done|].
  cbn [forRange]. rewrite IH, Hcc. reflexivity.
Qed.

(** One turn of the backfill loop panics before its call or makes one call
    on the new subscriber. *)
Lemma backfill_turn cs tx (s : Subscriber) i :
  (exists v,
     (let* (cc, err) := lift (computeConsensusChange cs tx i) in
      debugPanic err >> emit (ProcessConsensusChange s cc))
     = ([], Panic v))
  \/ (exists cc,
        (let* (cc, err) := lift (computeConsensusChange cs tx i) in
         debugPanic err >> emit (ProcessConsensusChange s cc))
        = ([ProcessConsensusChange s cc], Val tt)).
Proof.
  pose proof (computeConsensusChange_not_OutOfFuel cs tx i) as Hfuel.
  destruct (computeConsensusChange cs tx i) as [[cc err]|v|]; [| |done].
  - rewrite bind_lift_Val. unfold debugPanic.
    destruct err as [e|]; [destruct DEBUG|].
    + left. by exists (PanicError e).
    + right. by exists cc.
    + right. by exists cc.
  - left. by exists v.
Qed.

Lemma backfill_trace cs tx (s : Subscriber) indices :
  exists t r,
    forRange indices (fun i =>
      let* (cc, err) := lift (computeConsensusChange cs tx i) in
      debugPanic err >>
      emit (ProcessConsensusChange s cc)) = (t, r)
    /\ Forall (fun c => exists cc, c = ProcessConsensusChange s cc) t
    /\ length t <= length indices
    /\ ((exists v, r = Panic v) \/ (r = Val tt /\ length t = length indices)).
Proof.
  induction indices as [|i indices (t & r & IH & Hall & Hlen & Hres)].
  - exists [], (Val tt). repeat split; [constructor|done|by right].
  - cbn [forRange]. rewrite IH.
    destruct (backfill_turn cs tx s i) as [[v ->]|[cc ->]].
    + exists [], (Panic v).
      split; [reflexivity|]. split; [constructor|]. split; [simpl; lia|].
      left. by exists v.
    + exists (ProcessConsensusChange s cc :: t), r.
      split; [reflexivity|]. split; [constructor; [by exists cc|done]|].
      split; [simpl; lia|].
      destruct Hres as [Hp|[-> Hl]]; [by left|right]. split; [done|simpl; lia].
Qed.

(** X8: whatever the store holds, the backfill of a new subscriber calls
    nobody but that subscriber, makes at most one call per entry of the
    log, and never runs forever. When it returns, the result is the
    consensus set with the subscriber appended and there was exactly one
    call per entry. *)
Theorem ConsensusSetSubscribe_calls_new_subscriber_only cs (s : Subscriber) :
  Forall (fun c => exists cc, c = ProcessConsensusChange s cc)
    (ConsensusSetSubscribe cs s).1
  /\ length (ConsensusSetSubscribe cs s).1 <= length (changeLog cs)
  /\ (ConsensusSetSubscribe cs s).2 <> OutOfFuel
  /\ (forall cs', (ConsensusSetSubscribe cs s).2 = Val cs' ->
        cs' = withSubscriber cs s
        /\ length (ConsensusSetSubscribe cs s).1 = length (changeLog cs)).
Proof.
  rewrite ConsensusSetSubscribe_unfold.
  destruct (backfill_trace cs (db cs) s
              (Z.of_nat <$> seq 0 (length (changeLog cs))))
    as (t & r & -> & Hall & Hlen & Hres).
  rewrite length_fmap, length_seq in Hlen, Hres.
  destruct Hres as [[v ->]|[-> Hl]]; simpl.
  - repeat split; try done. 
  - rewrite app_nil_r. repeat split; try done; congruence.
Qed.

(** X9: when the change computer returns at the first [k] indices and
    panics at index [k], the new subscriber has received the changes of
    the first [k] indices, in order, when the panic leaves the backfill;
    no later index is tried. *)
Theorem ConsensusSetSubscribe_stops_at_panic cs (s : Subscriber) k ccs v :
  k < length (changeLog cs) ->
  Forall2 (fun i cc => computeConsensusChange cs (db cs) i = Val (cc, None))
    (Z.of_nat <$> seq 0 k) ccs ->
  computeConsensusChange cs (db cs) (Z.of_nat k) = Panic v ->
  ConsensusSetSubscribe cs s = (ProcessConsensusChange s <$> ccs, Panic v).
Proof.
  intros Hk Hccs Hpanic. rewrite ConsensusSetSubscribe_unfold.
  replace (length (changeLog cs)) with (k + S (length (changeLog cs) - S k)) by lia.
  rewrite seq_app, fmap_app, forRange_app. simpl seq. rewrite fmap_cons.
  rewrite (backfill_returns _ _ _ _ _ Hccs).
  cbn [forRange]. rewrite Hpanic. simpl. by rewrite app_nil_r.
Qed.

Lemma Forall_exists_Forall2 {A B} (P : A -> B -> Prop) (l : list A) :
  Forall (fun x => exists y, P x y) l -> exists k, Forall2 P l k.
Proof.
  induction 1 as [|x l [y Hy] _ [k IH]].
  - exists []. constructor.
  - exists (y :: k). by constructor.
Qed.

(** X10: a subscriber that registers and is then notified of the next
    entry misses nothing and sees nothing twice. Let the log grow by one
    entry after the subscription, on a store that still answers the same
    for the blocks of the older entries and holds every block of the
    grown log. Then the backfill delivered the changes of the indices
    below the new one, and the next notification pass delivers the change
    of the new index, to the older subscribers first and then to the new
    one; together these are the changes of the grown log, index by index. *)
Theorem subscribe_then_notify cs cs2 (s : Subscriber) ce :
  changeLog cs2 = changeLog cs ++ [ce] ->
  subscribers cs2 = subscribers cs ++ [s] ->
  logInStore cs2 ->
  Forall (fun ce0 =>
            Forall (fun id => getBlockMap (db cs) id = getBlockMap (db cs2) id)
              (entryIDs ce0)) (changeLog cs) ->
  exists ccs cc,
    Forall2 (fun i c => computeConsensusChange cs2 (db cs2) i = Val (c, None))
      (Z.of_nat <$> seq 0 (S (length (changeLog cs)))) (ccs ++ [cc])
    /\ ConsensusSetSubscribe cs s
       = (ProcessConsensusChange s <$> ccs, Val (withSubscriber cs s))
    /\ readlockUpdateSubscribers cs2 ce
       = (((fun x => ProcessConsensusChange x cc) <$> subscribers cs)
          ++ [ProcessConsensusChange s cc]
          ++ ((fun ds => ProcessConsensusDigest ds (ID <$> RevertedBlocks cc)
                           (ID <$> AppliedBlocks cc)) <$> digestSubscribers cs2),
          Val tt).
Proof.
  intros Hlog Hsubs Hstore Hagree.
  assert (length (changeLog cs2) = S (length (changeLog cs))) as Hlen
    by (rewrite Hlog, length_app; simpl; lia).
  assert (forall n, n < S (length (changeLog cs)) ->
            exists c, computeConsensusChange cs2 (db cs2) (Z.of_nat n) = Val (c, None))
    as Hnew.
  { intros n Hn. apply computeConsensusChange_present; [lia|].
    intros ce0 Hce0. rewrite Nat2Z.id in Hce0.
    exact (Forall_lookup_1 _ _ _ _ Hstore Hce0). }
  assert (forall n, n < length (changeLog cs) ->
            computeConsensusChange cs (db cs) (Z.of_nat n)
            = computeConsensusChange cs2 (db cs2) (Z.of_nat n)) as Hold.
  { intros n Hn.
    rewrite (computeConsensusChange_prefix cs cs2 (db cs2) _ [ce] Hlog) by lia.
    apply computeConsensusChange_ext; [done|].
    intros ce0 Hce0. rewrite Nat2Z.id in Hce0.
    exact (Forall_lookup_1 _ _ _ _ Hagree Hce0). }
  destruct (Forall_exists_Forall2
              (fun i c => computeConsensusChange cs (db cs) i = Val (c, None)
                          /\ computeConsensusChange cs2 (db cs2) i = Val (c, None))
              (Z.of_nat <$> seq 0 (length (changeLog cs)))) as [ccs Hccs].
  { apply Forall_fmap, Forall_forall. intros n Hn%elem_of_seq. simpl.
    destruct (Hnew n) as [c Hc]; [lia|]. exists c.
    split; [|done]. rewrite Hold by lia. done. }
  destruct (Hnew (length (changeLog cs))) as [cc Hcc]; [lia|].
  exists ccs, cc. split; [|split].
  - rewrite seq_S, fmap_app. apply Forall2_app.
    + eapply Forall2_impl; [exact Hccs|]. by intros i c [_ ?].
    + by repeat constructor.
  - rewrite ConsensusSetSubscribe_unfold.
    rewrite (backfill_returns cs (db cs) s _ ccs).
    + simpl. by rewrite app_nil_r.
    + eapply Forall2_impl; [exact Hccs|]. by intros i c [? _].
  - rewrite readlockUpdateSubscribers_unfold, Hlen.
    replace (Z.of_nat (S (length (changeLog cs))) - 1)%Z
      with (Z.of_nat (length (changeLog cs))) by lia.
    rewrite Hcc, bind_lift_Val. unfold debugPanic, notification.
    rewrite Hsubs, fmap_app, <- app_assoc. reflexivity.
Qed.

Lemma ConsensusSetSubscribe_logInStore cs (s : Subscriber) :
  logInStore cs ->
  exists ccs,
    Forall2 (fun i cc => computeConsensusChange cs (db cs) i = Val (cc, None))
      (Z.of_nat <$> seq 0 (length (changeLog cs))) ccs
    /\ ConsensusSetSubscribe cs s
       = (ProcessConsensusChange s <$> ccs, Val (withSubscriber cs s)).
Proof.
  intros Hstore.
  destruct (Forall_exists_Forall2
              (fun i cc => computeConsensusChange cs (db cs) i = Val (cc, None))
              (Z.of_nat <$> seq 0 (length (changeLog cs)))) as [ccs Hccs].
  { apply Forall_fmap, Forall_forall. intros n Hn%elem_of_seq. simpl.
    apply computeConsensusChange_present; [lia|].
    intros ce Hce. rewrite Nat2Z.id in Hce.
    exact (Forall_lookup_1 _ _ _ _ Hstore Hce). }
  exists ccs. split; [done|].
  rewrite ConsensusSetSubscribe_unfold, (backfill_returns _ _ _ _ _ Hccs).
  simpl. by rewrite app_nil_r.
Qed.

(** X14: two subscribers that register one after the other on the same
    log, whose blocks are all in the store, receive the same changes in
    the same order, and end up in the subscribers in their order of
    registration, after the ones already there. *)
Theorem successive_subscribers_same_history cs (s1 s2 : Subscriber) :
  logInStore cs ->
  exists ccs,
    length ccs = length (changeLog cs)
    /\ ConsensusSetSubscribe cs s1
       = (ProcessConsensusChange s1 <$> ccs, Val (withSubscriber cs s1))
    /\ ConsensusSetSubscribe (withSubscriber cs s1) s2
       = (ProcessConsensusChange s2 <$> ccs,
          Val (withSubscriber (withSubscriber cs s1) s2))
    /\ subscribers (withSubscriber (withSubscriber cs s1) s2)
       = subscribers cs ++ [s1; s2].
Proof.
  intros Hstore.
  destruct (ConsensusSetSubscribe_logInStore cs s1 Hstore) as (ccs & Hccs & Hs1).
  exists ccs. split; [|split; [done|split]].
  - apply Forall2_length in Hccs. by rewrite <- Hccs, length_fmap, length_seq.
  - rewrite ConsensusSetSubscribe_unfold.
    rewrite (backfill_returns (withSubscriber cs s1) (db cs) s2 _ ccs).
    + simpl. by rewrite app_nil_r.
    + eapply Forall2_impl; [exact Hccs|].
      intros i cc <-. apply computeConsensusChange_withSubscriber.
  - simpl. by rewrite <- app_assoc.
Qed.

(** ** Further properties of the digest subscription *)

Lemma ConsensusSetDigestSubscribe_unfold fuel cs (s : DigestSubscriber) :
  ConsensusSetDigestSubscribe fuel cs s
  = match pathLoop fuel (db cs) (blockHeight (db cs)) 0 [] with
    | Val (currentPath, None) =>
        ([ProcessConsensusDigest s [] currentPath], Val (withDigestSubscriber cs s))
    | Val (_, Some e) =>
        if DEBUG then ([], Panic (PanicError e))
        else ([], Val (withDigestSubscriber cs s))
    | Panic v => ([], Panic v)
    | OutOfFuel => ([], OutOfFuel)
    end.
Proof.
  unfold ConsensusSetDigestSubscribe, View. cbn [db].
  destruct (pathLoop _ _ _ _ _) as [[currentPath [e|]]| |]; simpl; try done.
  by destruct DEBUG.
Qed.

(** X11: whatever the store holds, the digest subscription makes at most
    one call, on the new subscriber, with no reverted ID, and having made
    it returns the consensus set with the subscriber appended. A run that
    makes no call panics, runs out of iterations, or, in a release build
    only, returns with the subscriber registered and no baseline sent. *)
Theorem ConsensusSetDigestSubscribe_at_most_one_call fuel cs (s : DigestSubscriber) :
  (exists currentPath,
     ConsensusSetDigestSubscribe fuel cs s
     = ([ProcessConsensusDigest s [] currentPath], Val (withDigestSubscriber cs s)))
  \/ ((ConsensusSetDigestSubscribe fuel cs s).1 = []
      /\ ((exists v, (ConsensusSetDigestSubscribe fuel cs s).2 = Panic v)
          \/ (ConsensusSetDigestSubscribe fuel cs s).2 = OutOfFuel
          \/ ((ConsensusSetDigestSubscribe fuel cs s).2
              = Val (withDigestSubscriber cs s)
              /\ DEBUG = false))).
Proof.
  rewrite ConsensusSetDigestSubscribe_unfold.
  destruct (pathLoop _ _ _ _ _) as [[currentPath [e|]]|v|].
  - right. destruct DEBUG; simpl; split; eauto.
  - left. by exists currentPath.
  - right. simpl. eauto.
  - right. simpl. eauto.
Qed.

(** The loop stops at the first height whose block cannot be read, with
    the path read below it and the error of the read. *)
Lemma pathLoop_stops_at_error tx height h e fuel :
  (h <= height < 2 ^ 64)%Z ->
  (getPath tx h).2 = Some e ->
  forall i currentPath,
    (0 <= i <= h)%Z ->
    (h - i < Z.of_nat fuel)%Z ->
    Forall (fun x => (getPath tx x).2 = None) (seqZ i (h - i)) ->
    pathLoop fuel tx height i currentPath
    = Val (currentPath ++ ((fun x => (getPath tx x).1) <$> seqZ i (h - i)), Some e).
Proof.
  intros Hh He. induction fuel as [|fuel IH]; intros i currentPath Hi Hfuel Hpath;
    [lia|].
  rewrite pathLoop_unfold. rewrite bool_decide_eq_true_2 by lia. simpl.
  destruct (decide (i = h)) as [->|Hne].
  - destruct (getPath tx h) as [id err]. simpl in He. subst err.
    rewrite Z.sub_diag. simpl. by rewrite app_nil_r.
  - rewrite seqZ_cons in Hpath |- * by lia.
    apply Forall_cons in Hpath as [Hp Hpath].
    destruct (getPath tx i) as [id err] eqn:Hg. simpl in Hp. subst err.
    rewrite Z.mod_small by lia.
    replace (Z.pred (h - i)) with (h - (i + 1))%Z in * by lia.
    replace (Z.succ i) with (i + 1)%Z in * by lia.
    rewrite IH by (auto; lia).
    rewrite fmap_cons, Hg. simpl. by rewrite <- app_assoc.
Qed.

(** X12: when the path cannot be read at some height up to the current
    one, the new digest subscriber receives no baseline at all, not even
    the part of the path below that height: a debug build panics with the
    error of the read, a release build returns with the subscriber
    registered and no call made. *)
Theorem ConsensusSetDigestSubscribe_unreadable_path fuel cs (s : DigestSubscriber) h e :
  (0 <= h <= blockHeight (db cs))%Z ->
  (blockHeight (db cs) < 2 ^ 64)%Z ->
  Forall (fun x => (getPath (db cs) x).2 = None) (seqZ 0 h) ->
  (getPath (db cs) h).2 = Some e ->
  (h < Z.of_nat fuel)%Z ->
  (DEBUG = true ->
   ConsensusSetDigestSubscribe fuel cs s = ([], Panic (PanicError e)))
  /\ (DEBUG = false ->
      ConsensusSetDigestSubscribe fuel cs s = ([], Val (withDigestSubscriber cs s))).
Proof.
  intros Hh Hmax Hpath He Hfuel.
  rewrite ConsensusSetDigestSubscribe_unfold.
  rewrite (pathLoop_stops_at_error _ _ h e);
    rewrite ?Z.sub_0_r; [|lia|done|lia|lia|done].
  split; intros ->; reflexivity.
Qed.

Lemma pathLoop_max_height tx fuel :
  (forall h, (0 <= h < 2 ^ 64)%Z -> (getPath tx h).2 = None) ->
  forall i currentPath,
    (0 <= i < 2 ^ 64)%Z ->
    pathLoop fuel tx (2 ^ 64 - 1) i currentPath = OutOfFuel.
Proof.
  intros Hpath. induction fuel as [|fuel IH]; intros i currentPath Hi;
    rewrite pathLoop_unfold; rewrite bool_decide_eq_true_2 by lia; simpl; [done|].
  specialize (Hpath i Hi).
  destruct (getPath tx i) as [id err]. simpl in Hpath. subst err.
  apply IH. apply Z.mod_pos_bound. lia.
Qed.

(** X13: at the largest height a [uint64] holds, with a block on the path
    at every height, the loop that reads the path never ends: its counter
    wraps to 0 instead of passing the height, so no number of iterations
    is enough and the subscriber is never called. *)
Theorem ConsensusSetDigestSubscribe_max_height_never_ends cs (s : DigestSubscriber) :
  blockHeight (db cs) = (2 ^ 64 - 1)%Z ->
  (forall h, (0 <= h < 2 ^ 64)%Z -> (getPath (db cs) h).2 = None) ->
  forall fuel, ConsensusSetDigestSubscribe fuel cs s = ([], OutOfFuel).
Proof.
  intros Hheight Hpath fuel.
  rewrite ConsensusSetDigestSubscribe_unfold, Hheight.
  by rewrite pathLoop_max_height by (auto; lia).
Qed.

End Properties.

(** ** The model at work on the sample store *)

Import Sample.

(** The reorganisation of section 8: block 2 is reverted, and its pool
    diffs come out in reverse order, all with direction Revert. *)
Lemma reverted_pool_diffs_forced_Revert_witness :
  exists cc,
    computeConsensusChange (Ext:=debugEnv) cs0 tx0 2 = Val (cc, None)
    /\ SiafundPoolDiffs cc
       = [mkDiff false 21; mkDiff false 20;
          mkDiff true 30; mkDiff false 31; mkDiff true 40; mkDiff false 41].
Proof.
  destruct (reverted_pool_diffs_forced_Revert (Ext:=debugEnv) cs0 tx0 2
              (entry [102] [103; 104]) [record 2 20] [record 3 30; record 4 40])
    as (cc & Hc & Hp & _);
    [lia | reflexivity | repeat constructor | repeat constructor |].
  exists cc. split; [exact Hc | rewrite Hp; reflexivity].
Defined.

(** In the same scenario the other diffs of block 2 come out in reverse
    order with the direction inverted. *)
Lemma reverted_blocks_diffs_reversed_inverted_witness :
  exists cc,
    computeConsensusChange (Ext:=debugEnv) cs0 tx0 2 = Val (cc, None)
    /\ RevertedBlocks cc = [2]
    /\ SiacoinOutputDiffs cc
       = [mkDiff true 21; mkDiff false 20;
          mkDiff true 30; mkDiff false 31; mkDiff true 40; mkDiff false 41]
    /\ SiafundOutputDiffs cc
       = [mkDiff false 21; mkDiff true 20;
          mkDiff false 30; mkDiff true 31; mkDiff false 40; mkDiff true 41].
Proof.
  destruct (reverted_blocks_diffs_reversed_inverted (Ext:=debugEnv) cs0 tx0 2
              (entry [102] [103; 104]) [record 2 20] [record 3 30; record 4 40])
    as (cc & Hc & Hb & Hsco & _ & Hsfo & _);
    [lia | reflexivity | repeat constructor | repeat constructor |].
  exists cc. rewrite Hb, Hsco, Hsfo. repeat split; exact Hc.
Defined.

(** Blocks 3 and 4 are applied after block 2 is reverted, their diffs as
    stored. *)
Lemma applied_blocks_diffs_after_reverted_witness :
  exists cc,
    computeConsensusChange (Ext:=debugEnv) cs0 tx0 2 = Val (cc, None)
    /\ AppliedBlocks cc = [3; 4]
    /\ FileContractDiffs cc = [mkDiff false 20; mkDiff true 30; mkDiff true 40].
Proof.
  destruct (applied_blocks_diffs_after_reverted (Ext:=debugEnv) cs0 tx0 2
              (entry [102] [103; 104]) [record 2 20] [record 3 30; record 4 40])
    as (cc & Hc & Hb & _ & Hfc & _);
    [lia | reflexivity | repeat constructor | repeat constructor |].
  exists cc. rewrite Hb, Hfc. repeat split; exact Hc.
Defined.

(** The log has three entries: index 3 and index -1 are out of range,
    index 2 is served. *)
Lemma ConsensusChange_error_iff_out_of_range_witness :
  ConsensusSet_ConsensusChange (Ext:=debugEnv) cs0 3
  = Val (zeroChange, Some boundsError)
  /\ ConsensusSet_ConsensusChange (Ext:=debugEnv) cs0 (-1)
     = Val (zeroChange, Some boundsError)
  /\ exists cc, ConsensusSet_ConsensusChange (Ext:=debugEnv) cs0 2 = Val (cc, None).
Proof.
  split; [|split].
  - apply (ConsensusChange_error_iff_out_of_range (Ext:=debugEnv) cs0 3).
    + intros ce _ Hce. vm_compute in Hce. discriminate.
    + right. simpl. lia.
  - apply (ConsensusChange_error_iff_out_of_range (Ext:=debugEnv) cs0 (-1)).
    + intros ce Hneg. lia.
    + left. lia.
  - destruct (ConsensusChange_error_iff_out_of_range (Ext:=debugEnv) cs0 2)
      as (_ & Hin & _).
    + intros ce _ Hce. vm_compute in Hce. injection Hce as <-.
      unfold entryIDs. simpl. in_store.
    + destruct Hin as (cc & _ & Hcc); [simpl; lia|]. by exists cc.
Defined.

(** The entry of [cs1] names the block 105, which the store lacks: the
    debug build panics with the error of that lookup, the release build on
    the nil record, and the query and the notifier with them. *)
Lemma lookup_failure_is_fatal_witness :
  (computeConsensusChange (Ext:=debugEnv) cs1 tx0 0 = Panic (PanicError notFound)
   /\ computeConsensusChange (Ext:=releaseEnv) cs1 tx0 0
      = Panic (PanicRuntime NilDereference))
  /\ (exists v,
        ConsensusSet_ConsensusChange (Ext:=releaseEnv) cs1 0 = Panic v
        /\ readlockUpdateSubscribers (Ext:=releaseEnv) cs1 (entry [] [101; 105])
           = ([], Panic v)).
Proof.
  assert (forall debug,
            Forall (noRecordOnError (Ext:=env debug) tx0) [101; 105]) as Hstrict.
  { intros debug. repeat constructor; intros r e H; vm_compute in H; congruence. }
  assert (forall debug,
            Exists (lookupFails (Ext:=env debug) tx0) [101; 105]) as Hfails.
  { intros debug. apply Exists_cons_tl, Exists_cons_hd. vm_compute. discriminate. }
  split; [split|].
  - destruct (lookup_failure_is_fatal (Ext:=debugEnv) cs1 tx0 0
                (entry [] [101; 105])) as [_ Hfirst];
      [lia | reflexivity | apply Hstrict | apply Hfails |].
    apply (Hfirst [101] [record 1 10] 105 [] notFound);
      [reflexivity | repeat constructor | reflexivity].
  - destruct (lookup_failure_is_fatal (Ext:=releaseEnv) cs1 tx0 0
                (entry [] [101; 105])) as [_ Hfirst];
      [lia | reflexivity | apply Hstrict | apply Hfails |].
    apply (Hfirst [101] [record 1 10] 105 [] notFound);
      [reflexivity | repeat constructor | reflexivity].
  - destruct (lookup_failure_is_fatal (Ext:=releaseEnv) cs1 tx0 0
                (entry [] [101; 105])) as [(v & _ & Hpaths) _];
      [lia | reflexivity | apply Hstrict | apply Hfails |].
    destruct (Hpaths eq_refl) as [Hquery Hnotify].
    exists v. split; [exact Hquery | by apply Hnotify].
Defined.

(** A new subscriber of [cs0] receives the three changes of the log. *)
Lemma ConsensusSetSubscribe_backfill_witness :
  exists ccs,
    length ccs = 3
    /\ ConsensusSetSubscribe (Ext:=debugEnv) cs0 "renter"
       = (ProcessConsensusChange "renter" <$> ccs, Val (withSubscriber cs0 "renter")).
Proof.
  destruct (ConsensusSetSubscribe_backfill (Ext:=debugEnv) cs0 "renter") as [H _].
  destruct H as (ccs & _ & Hlen & Hrun); [unfold logInStore; in_store|].
  exists ccs. split; [exact Hlen | exact Hrun].
Defined.

(** A new digest subscriber of [cs0] receives the four IDs of the path. *)
Lemma ConsensusSetDigestSubscribe_baseline_witness :
  ConsensusSetDigestSubscribe (Ext:=debugEnv) 4 cs0 "monitor"
  = ([ProcessConsensusDigest "monitor" [] [100; 101; 103; 104]],
     Val (withDigestSubscriber cs0 "monitor")).
Proof.
  assert (blockHeight (Externals:=debugEnv) (db cs0) = 3%Z) as Hheight
    by reflexivity.
  destruct (ConsensusSetDigestSubscribe_baseline (Ext:=debugEnv) 4 cs0 "monitor")
    as [H _];
    [rewrite Hheight; lia | vm_compute; repeat constructor | rewrite Hheight; lia |].
  exact H.
Defined.

(** A notification pass on [cs0]: the wallet, the miner, then the explorer. *)
Lemma readlockUpdateSubscribers_notification_witness :
  readlockUpdateSubscribers (Ext:=debugEnv) cs0 (entry [102] [103; 104])
  = ([ProcessConsensusChange "wallet" cc0; ProcessConsensusChange "miner" cc0;
      ProcessConsensusDigest "explorer" [102] [103; 104]],
     Val tt).
Proof.
  exact (readlockUpdateSubscribers_notification (Ext:=debugEnv) cs0
           (entry [102] [103; 104]) cc0 None eq_refl (or_introl eq_refl)).
Defined.

(** The last change of the log is the same over another store that agrees
    on the blocks 102, 103 and 104, for a set with other subscribers. *)
Lemma computeConsensusChange_deterministic_witness :
  computeConsensusChange (Ext:=debugEnv) cs0 tx0 2
  = computeConsensusChange (Ext:=debugEnv) cs2 tx2 2.
Proof.
  apply (computeConsensusChange_deterministic (Ext:=debugEnv) cs0 cs2 tx0 tx2 2);
    [simpl; lia | reflexivity |].
  intros ce Hce. vm_compute in Hce. injection Hce as <-.
  repeat constructor.
Defined.

(** Given the first entry of the log, the notifier still delivers the
    change of the last one. *)
Lemma readlockUpdateSubscribers_ignores_entry_witness :
  readlockUpdateSubscribers (Ext:=debugEnv) cs0 (entry [] [101])
  = readlockUpdateSubscribers (Ext:=debugEnv) cs0 (entry [102] [103; 104])
  /\ computeConsensusChange (Ext:=debugEnv) cs0 tx0 2
     = res_bind (replayEntry (Ext:=debugEnv) tx0 (entry [102] [103; 104]))
         (fun cc => Val (cc, None)).
Proof.
  destruct (readlockUpdateSubscribers_ignores_entry (Ext:=debugEnv) cs0
              (entry [102] [103; 104])) as (Hany & _ & Hlast).
  split; [apply Hany | apply (Hlast (entry [102] [103; 104])); reflexivity].
Defined.

(** On an empty log the index of the last entry is -1: the debug build
    panics with the bounds error, the release build delivers the zero
    change. *)
Example readlockUpdateSubscribers_empty_log :
  readlockUpdateSubscribers (Ext:=debugEnv) csEmpty (entry [] [101])
  = ([], Panic (PanicError boundsError))
  /\ readlockUpdateSubscribers (Ext:=releaseEnv) csEmpty (entry [] [101])
     = ([ProcessConsensusChange "wallet" zeroChange;
         ProcessConsensusDigest "explorer" [] []], Val tt).
Proof. split; reflexivity. Qed.

(** ** Further runs on the sample store *)

Lemma computeConsensusChange_returned_witness :
  exists ce rpbs apbs,
    changeLog cs0 !! 2 = Some ce
    /\ Forall2 (fetched (Ext:=debugEnv) tx0) (revertedBlocks ce) rpbs
    /\ Forall2 (fetched (Ext:=debugEnv) tx0) (appliedBlocks ce) apbs
    /\ cc0 = specChange (Ext:=debugEnv) rpbs apbs.
Proof.
  destruct (computeConsensusChange_returned (Ext:=debugEnv) cs0 tx0 2 cc0 None
              eq_refl)
    as [(Herr & _)|(_ & _ & ce & rpbs & apbs & Hce & Hr & Ha & Hcc)];
    [discriminate|].
  by exists ce, rpbs, apbs.
Defined.

(** Index 1 gives the same change before and after the last entry of
    [log0] is appended, also over the larger store. *)
Lemma computeConsensusChange_stable_under_append_witness :
  computeConsensusChange (Ext:=debugEnv) cs0 tx2 1
  = computeConsensusChange (Ext:=debugEnv) csBefore tx0 1.
Proof.
  apply (computeConsensusChange_stable_under_append (Ext:=debugEnv)
           csBefore cs0 tx0 tx2 1 [entry [102] [103; 104]]);
    [reflexivity | simpl; lia |].
  intros ce Hce. vm_compute in Hce. injection Hce as <-.
  repeat constructor.
Defined.

Lemma readlockUpdateSubscribers_empty_changeLog_witness :
  readlockUpdateSubscribers (Ext:=debugEnv) csEmpty (entry [] [101])
  = ([], Panic (PanicError boundsError))
  /\ readlockUpdateSubscribers (Ext:=releaseEnv) csEmpty (entry [] [101])
     = ([ProcessConsensusChange "wallet" zeroChange;
         ProcessConsensusDigest "explorer" [] []], Val tt).
Proof.
  split.
  - by apply (readlockUpdateSubscribers_empty_changeLog (Ext:=debugEnv) csEmpty
                (entry [] [101]) eq_refl).
  - by apply (readlockUpdateSubscribers_empty_changeLog (Ext:=releaseEnv) csEmpty
                (entry [] [101]) eq_refl).
Defined.

(** The sample store keeps the block [b] under [b + 100], its ID: the
    digest of the last entry of [log0] is the entry itself. *)
Lemma readlockUpdateSubscribers_digest_is_entry_witness :
  readlockUpdateSubscribers (Ext:=debugEnv) cs0 (entry [] [])
  = ([ProcessConsensusChange "wallet" cc0; ProcessConsensusChange "miner" cc0;
      ProcessConsensusDigest "explorer" [102] [103; 104]],
     Val tt).
Proof.
  apply (readlockUpdateSubscribers_digest_is_entry (Ext:=debugEnv) cs0 (entry [] [])
           (entry [102] [103; 104]) [record 2 20] [record 3 30; record 4 40]);
    [reflexivity | repeat constructor..].
Defined.

(** The second entry of [csUndo] undoes the first. *)
Lemma revert_undoes_apply_witness :
  exists cca ccr,
    computeConsensusChange (Ext:=debugEnv) csUndo tx0 0 = Val (cca, None)
    /\ computeConsensusChange (Ext:=debugEnv) csUndo tx0 1 = Val (ccr, None)
    /\ RevertedBlocks ccr = reverse (AppliedBlocks cca)
    /\ SiacoinOutputDiffs ccr
       = inverted (Ext:=debugEnv) <$> reverse (SiacoinOutputDiffs cca)
    /\ SiafundPoolDiffs ccr
       = forcedRevert (Ext:=debugEnv) <$> reverse (SiafundPoolDiffs cca).
Proof.
  destruct (revert_undoes_apply (Ext:=debugEnv) csUndo tx0 0 1 [103; 104]
              [record 3 30; record 4 40])
    as (cca & ccr & Ha & Hr & Hb & _ & _ & Hsco & _ & _ & _ & Hpool & _);
    [lia | lia | reflexivity | reflexivity | repeat constructor |].
  by exists cca, ccr.
Defined.

(** The backfill of [cs0] returns, so it made three calls. *)
Lemma ConsensusSetSubscribe_calls_new_subscriber_only_witness :
  length (ConsensusSetSubscribe (Ext:=debugEnv) cs0 "renter").1 = 3.
Proof.
  destruct (ConsensusSetSubscribe_calls_new_subscriber_only (Ext:=debugEnv)
              cs0 "renter") as (_ & _ & _ & Hret).
  by destruct (Hret (withSubscriber cs0 "renter") eq_refl) as [_ Hlen].
Defined.

(** In a debug build the backfill of [cs3] delivers the change of index 0
    and panics on the missing block of index 1. *)
Lemma ConsensusSetSubscribe_stops_at_panic_witness :
  ConsensusSetSubscribe (Ext:=debugEnv) cs3 "renter"
  = ([ProcessConsensusChange "renter"
        (specChange (Ext:=debugEnv) [] [record 1 10])],
     Panic (PanicError notFound)).
Proof.
  apply (ConsensusSetSubscribe_stops_at_panic (Ext:=debugEnv) cs3 "renter" 1
           [specChange (Ext:=debugEnv) [] [record 1 10]] (PanicError notFound));
    [simpl; lia | repeat constructor | reflexivity].
Defined.

(** The miner subscribes to [csBefore] and receives the changes of the
    indices 0 and 1; the entry of [cs0] is appended; the next pass gives
    the miner the change of index 2, after the wallet. *)
Lemma subscribe_then_notify_witness :
  exists ccs cc,
    Forall2 (fun i c =>
               computeConsensusChange (Ext:=debugEnv) cs0 tx0 i = Val (c, None))
      [0%Z; 1%Z; 2%Z] (ccs ++ [cc])
    /\ ConsensusSetSubscribe (Ext:=debugEnv) csBefore "miner"
       = (ProcessConsensusChange "miner" <$> ccs,
          Val (withSubscriber csBefore "miner"))
    /\ readlockUpdateSubscribers (Ext:=debugEnv) cs0 (entry [102] [103; 104])
       = ([ProcessConsensusChange "wallet" cc; ProcessConsensusChange "miner" cc;
           ProcessConsensusDigest "explorer"
             (ID (Externals:=debugEnv) <$> RevertedBlocks cc)
             (ID (Externals:=debugEnv) <$> AppliedBlocks cc)],
          Val tt).
Proof.
  destruct (subscribe_then_notify (Ext:=debugEnv) csBefore cs0 "miner"
              (entry [102] [103; 104]))
    as (ccs & cc & Hall & Hsub & Hnotify);
    [reflexivity | reflexivity | unfold logInStore; in_store
    | repeat constructor |].
  by exists ccs, cc.
Defined.

(** The path of [tx0] has no block at height 4. *)
Lemma ConsensusSetDigestSubscribe_unreadable_path_witness :
  ConsensusSetDigestSubscribe (Ext:=shortPathEnv true) 10 cs0 "monitor"
  = ([], Panic (PanicError notFound))
  /\ ConsensusSetDigestSubscribe (Ext:=shortPathEnv false) 10 cs0 "monitor"
     = ([], Val (withDigestSubscriber cs0 "monitor")).
Proof.
  assert (forall debug,
            blockHeight (Externals:=shortPathEnv debug) (db cs0) = 5%Z) as Hheight
    by reflexivity.
  split.
  - apply (ConsensusSetDigestSubscribe_unreadable_path (Ext:=shortPathEnv true)
             10 cs0 "monitor" 4 notFound);
      [rewrite Hheight; lia | rewrite Hheight; lia | vm_compute; repeat constructor
      | reflexivity | lia | reflexivity].
  - apply (ConsensusSetDigestSubscribe_unreadable_path (Ext:=shortPathEnv false)
             10 cs0 "monitor" 4 notFound);
      [rewrite Hheight; lia | rewrite Hheight; lia | vm_compute; repeat constructor
      | reflexivity | lia | reflexivity].
Defined.

Lemma ConsensusSetDigestSubscribe_max_height_never_ends_witness :
  ConsensusSetDigestSubscribe (Ext:=endlessEnv) 1000 cs0 "monitor"
  = ([], OutOfFuel).
Proof.
  apply (ConsensusSetDigestSubscribe_max_height_never_ends (Ext:=endlessEnv)
           cs0 "monitor"); [reflexivity|].
  intros h _. reflexivity.
Defined.

(** The renter and then the host subscribe to [cs0]: both receive the same
    three changes. *)
Lemma successive_subscribers_same_history_witness :
  exists ccs,
    length ccs = 3
    /\ ConsensusSetSubscribe (Ext:=debugEnv) cs0 "renter"
       = (ProcessConsensusChange "renter" <$> ccs, Val (withSubscriber cs0 "renter"))
    /\ ConsensusSetSubscribe (Ext:=debugEnv) (withSubscriber cs0 "renter") "host"
       = (ProcessConsensusChange "host" <$> ccs,
          Val (withSubscriber (withSubscriber cs0 "renter") "host")).
Proof.
  destruct (successive_subscribers_same_history (Ext:=debugEnv) cs0 "renter" "host")
    as (ccs & Hlen & Hs1 & Hs2 & _); [unfold logInStore; in_store|].
  by exists ccs.
Defined.
